(** * superset/sql/parse.py: statements, table extraction and the KQL splitter

    A shallow embedding of [superset/sql/parse.py].

    Python text ([str]) is modelled by Rocq's [string]; a character outside
    ASCII is carried as the bytes of its UTF-8 encoding.  None of those bytes
    equals one of the ASCII characters the code compares against, so the
    scanning code behaves on the bytes as it does on the code points.

    The grammar engine (sqlglot) is not part of the repository: its
    operations are the fields of the class [Sqlglot], and its syntax trees
    are modelled by [Expression]. *)

From Stdlib Require Import ZArith Ascii String.
From stdpp Require Import base decidable option list gmap strings.

Local Open Scope Z_scope.

(** ** Python text *)

Module Py.

Definition chars (s : string) : list ascii := list_ascii_of_string s.
Definition text (l : list ascii) : string := string_of_list_ascii l.

(** [len(s)] *)
Definition len (s : string) : Z := Z.of_nat (length (chars s)).

(** An index of a subscript [s[i]]: a negative one counts from the end. *)
Definition index (n i : Z) : Z := if i <? 0 then i + n else i.

(** [s[i]]; [None] is Python's [IndexError]. *)
Definition getitem (s : string) (i : Z) : option ascii :=
  let j := index (len s) i in
  if (0 <=? j) && (j <? len s) then chars s !! Z.to_nat j else None.

(** A bound of a slice [s[a:b]]: a negative one counts from the end, and
    the result is clipped to [0..len]. *)
Definition bound (n i : Z) : Z :=
  if i <? 0 then Z.max (i + n) 0 else Z.min i n.

(** [s[a:b]] *)
Definition slice (s : string) (a b : Z) : string :=
  let start := bound (len s) a in
  let stop := bound (len s) b in
  text (take (Z.to_nat (stop - start)) (drop (Z.to_nat start) (chars s))).

(** [s[a:]] *)
Definition slice_from (s : string) (a : Z) : string :=
  text (drop (Z.to_nat (bound (len s) a)) (chars s)).

(** [s.endswith(suffix)] and [s.startswith(prefix)] *)
Definition endswith (s suffix : string) : bool :=
  bool_decide (chars suffix `suffix_of` chars s).
Definition startswith (s prefix : string) : bool :=
  bool_decide (chars prefix `prefix_of` chars s).

(** [str.isspace] on the encodings of the characters it accepts:
    U+0009..U+000D, U+001C..U+0020, U+0085, U+00A0, U+1680,
    U+2000..U+200A, U+2028, U+2029, U+202F, U+205F and U+3000. *)
Definition space1 (c : ascii) : bool :=
  let n := Z.of_N (N_of_ascii c) in
  ((9 <=? n) && (n <=? 13)) || ((28 <=? n) && (n <=? 32)).
Definition space2 (c1 c2 : ascii) : bool :=
  let n1 := Z.of_N (N_of_ascii c1) in
  let n2 := Z.of_N (N_of_ascii c2) in
  (n1 =? 194) && ((n2 =? 133) || (n2 =? 160)).
Definition space3 (c1 c2 c3 : ascii) : bool :=
  let n1 := Z.of_N (N_of_ascii c1) in
  let n2 := Z.of_N (N_of_ascii c2) in
  let n3 := Z.of_N (N_of_ascii c3) in
  ((n1 =? 225) && (n2 =? 154) && (n3 =? 128))
  || ((n1 =? 226) && (n2 =? 128)
      && (((128 <=? n3) && (n3 <=? 138)) || (n3 =? 168) || (n3 =? 169)
          || (n3 =? 175)))
  || ((n1 =? 226) && (n2 =? 129) && (n3 =? 159))
  || ((n1 =? 227) && (n2 =? 128) && (n3 =? 128)).

(** Drop the leading white space of a list of bytes. *)
Fixpoint lstrip_chars (l : list ascii) : list ascii :=
  match l with
  | [] => []
  | c1 :: l1 =>
      if space1 c1 then lstrip_chars l1
      else match l1 with
           | [] => l
           | c2 :: l2 =>
               if space2 c1 c2 then lstrip_chars l2
               else match l2 with
                    | [] => l
                    | c3 :: l3 =>
                        if space3 c1 c2 c3 then lstrip_chars l3 else l
                    end
           end
  end.

(** The same from the end, on the reversed list: the bytes of a character
    come last byte first. *)
Fixpoint rstrip_rev_chars (l : list ascii) : list ascii :=
  match l with
  | [] => []
  | c1 :: l1 =>
      if space1 c1 then rstrip_rev_chars l1
      else match l1 with
           | [] => l
           | c2 :: l2 =>
               if space2 c2 c1 then rstrip_rev_chars l2
               else match l2 with
                    | [] => l
                    | c3 :: l3 =>
                        if space3 c3 c2 c1 then rstrip_rev_chars l3 else l
                    end
           end
  end.

(** [s.strip()] *)
Definition strip (s : string) : string :=
  text (lstrip_chars (rev (rstrip_rev_chars (rev (chars s))))).

(** [s.upper()] on ASCII letters; other bytes are kept. *)
Definition upper_char (c : ascii) : ascii :=
  let n := N_of_ascii c in
  if ((97 <=? n) && (n <=? 122))%N then ascii_of_N (n - 32) else c.
Definition upper (s : string) : string := text (upper_char <$> chars s).

(** [s.replace(old, new)] for a one-character [old]. *)
Definition replace_char (old : ascii) (new : string) (s : string) : string :=
  text (c ← chars s; if bool_decide (c = old) then chars new else [c]).

(** [sep.join(parts)] *)
Fixpoint join (sep : string) (parts : list string) : string :=
  match parts with
  | [] => ""
  | [p] => p
  | p :: ps => p +:+ sep +:+ join sep ps
  end.

End Py.

(** ** The KQL splitter *)

Inductive KQLSplitState :=
| OUTSIDE_STRING
| INSIDE_SINGLE_QUOTED_STRING
| INSIDE_DOUBLE_QUOTED_STRING
| INSIDE_MULTILINE_STRING.

Global Instance KQLSplitState_eq_dec : EqDecision KQLSplitState.
Proof. solve_decision. Defined.

Module Kql.

(** The variables of the loop of [split_kql]. *)
Record vars := Vars {
  statements : list string;
  state : KQLSplitState;
  statement_start : Z
}.

Definition set_state (v : vars) (s : KQLSplitState) : vars :=
  Vars (statements v) s (statement_start v).

Definition double_quote : ascii := "034"%char.
Definition backslash : ascii := "092"%char.

(** The body of the loop, at index [i] with character [character]. *)
Definition body (query : string) (i : Z) (character : ascii) (v : vars) : vars :=
  if bool_decide (state v = OUTSIDE_STRING) then
    if bool_decide (character = ";"%char) then
      Vars (statements v ++ [Py.slice query (statement_start v) i])
           (state v) (i + 1)
    else if bool_decide (character = "'"%char) then
      set_state v INSIDE_SINGLE_QUOTED_STRING
    else if bool_decide (character = double_quote) then
      set_state v INSIDE_DOUBLE_QUOTED_STRING
    else if bool_decide (character = "`"%char)
            && bool_decide (Py.slice query (i - 2) i = "``") then
      set_state v INSIDE_MULTILINE_STRING
    else v
  else if bool_decide (state v = INSIDE_SINGLE_QUOTED_STRING)
          && bool_decide (character = "'"%char)
          && bool_decide (Py.getitem query (i - 1) ≠ Some backslash) then
    set_state v OUTSIDE_STRING
  else if bool_decide (state v = INSIDE_DOUBLE_QUOTED_STRING)
          && bool_decide (character = double_quote)
          && bool_decide (Py.getitem query (i - 1) ≠ Some backslash) then
    set_state v OUTSIDE_STRING
  else if bool_decide (state v = INSIDE_MULTILINE_STRING)
          && bool_decide (character = "`"%char)
          && bool_decide (Py.slice query (i - 2) i = "``") then
    set_state v OUTSIDE_STRING
  else v.

(** [for i, character in enumerate(query)], from index [i] on. *)
Fixpoint for_enumerate (query : string) (i : Z) (rest : list ascii)
    (v : vars) : vars :=
  match rest with
  | [] => v
  | character :: rest' =>
      for_enumerate query (i + 1) rest' (body query i character v)
  end.

Definition initial : vars := Vars [] OUTSIDE_STRING 0.

(** The text the loop scans: a separator is appended when one is missing. *)
Definition query_of (kql : string) : string :=
  if Py.endswith kql ";" then kql else kql +:+ ";".

(** The variables when the loop over [query] ends. *)
Definition run (query : string) : vars :=
  for_enumerate query 0 (Py.chars query) initial.

End Kql.

Definition split_kql (kql : string) : list string :=
  Kql.statements (Kql.run (Kql.query_of kql)).


(** ** Tables *)

Record Table := mkTable {
  table : string;
  schema : option string;
  catalog : option string
}.

Global Instance Table_eq_dec : EqDecision Table.
Proof. solve_decision. Defined.

Global Instance Table_countable : Countable Table.
Proof.
  refine (inj_countable' (λ t, (table t, schema t, catalog t))
                         (λ '(a, b, c), mkTable a b c) _).
  by intros [].
Defined.

Module Urllib.

(** The bytes [urllib.parse.quote] never escapes: letters, digits and
    [_.-~]. *)
Definition always_safe (c : ascii) : bool :=
  let n := N_of_ascii c in
  (((65 <=? n) && (n <=? 90)) || ((97 <=? n) && (n <=? 122))
   || ((48 <=? n) && (n <=? 57))
   || (n =? 95) || (n =? 46) || (n =? 45) || (n =? 126))%N.

Definition hex_digit (n : N) : ascii :=
  if (n <? 10)%N then ascii_of_N (48 + n) else ascii_of_N (55 + n).

(** [quote(part, safe="")]: every byte that is not always safe becomes
    [%XX], in upper-case hexadecimal. *)
Definition quote_byte (c : ascii) : list ascii :=
  if always_safe c then [c]
  else
    let n := N_of_ascii c in
    ["%"%char; hex_digit (n / 16); hex_digit (n mod 16)].

Definition quote (s : string) : string :=
  Py.text (c ← Py.chars s; quote_byte c).

End Urllib.

Module TableOps.

(** The parts of [__str__]: [None] and the empty string are both false
    for [if part]. *)
Definition parts (t : Table) : list string :=
  filter (λ part, part ≠ "")
         (omap id [catalog t; schema t; Some (table t)]).

Definition encode_part (part : string) : string :=
  Py.replace_char "."%char "%2E" (Urllib.quote part).

(** [Table.__str__] *)
Definition str (t : Table) : string :=
  Py.join "." (encode_part <$> parts t).

(** [Table.__eq__] *)
Definition eq (self other : Table) : bool :=
  bool_decide (str self = str other).

(** [Table.__hash__] is the one [dataclass(eq=True, frozen=True)]
    generates, the class defining [__eq__] and no [__hash__]: the hash of
    the tuple of the fields.  [hash] is Python's hash of such a tuple. *)
Definition hash (hash : string * option string * option string → Z)
    (t : Table) : Z :=
  hash (table t, schema t, catalog t).

End TableOps.

(** ** The grammar engine *)

Inductive Dialects :=
| BIGQUERY | CLICKHOUSE | DATABRICKS | DORIS | DRILL | DUCKDB | HIVE | MYSQL
| ORACLE | POSTGRES | PRESTO | REDSHIFT | SNOWFLAKE | SPARK | SQLITE
| STARROCKS | TERADATA | TRINO | TSQL.

Global Instance Dialects_eq_dec : EqDecision Dialects.
Proof. solve_decision. Defined.

(** mapping between DB engine specs and sqlglot dialects *)
Definition SQLGLOT_DIALECTS : gmap string Dialects :=
  list_to_map [
    ("ascend", HIVE); ("awsathena", PRESTO); ("bigquery", BIGQUERY);
    ("clickhouse", CLICKHOUSE); ("clickhousedb", CLICKHOUSE);
    ("cockroachdb", POSTGRES); ("couchbase", MYSQL);
    ("databricks", DATABRICKS); ("drill", DRILL); ("duckdb", DUCKDB);
    ("gsheets", SQLITE); ("hana", POSTGRES); ("hive", HIVE);
    ("mssql", TSQL); ("mysql", MYSQL); ("netezza", POSTGRES);
    ("oracle", ORACLE); ("postgresql", POSTGRES); ("presto", PRESTO);
    ("pydoris", DORIS); ("redshift", REDSHIFT); ("shillelagh", SQLITE);
    ("snowflake", SNOWFLAKE); ("spark", SPARK); ("sqlite", SQLITE);
    ("starrocks", STARROCKS); ("superset", SQLITE);
    ("teradatasql", TERADATA); ("trino", TRINO); ("vertica", POSTGRES)
  ].

(** The classes of sqlglot's expressions the code tests for, and those
    [Expression.text] looks at. *)
Module exp.

Inductive Class :=
| Insert | Update | Delete | Merge | Create | Drop | TruncateTable
| Command | Describe | Select | Table | Literal | Identifier | Var | Star
| Null | SetItem | EQ | Other (class_name : string).

Global Instance Class_eq_dec : EqDecision Class.
Proof. solve_decision. Defined.

End exp.

(** A syntax tree: the class of the node and its arguments by key, the text
    ones and the expression ones (an argument that is a list of expressions
    gives one entry per element, in order). *)
#[warnings="-register-all"]
Inductive Expression :=
| Node (cls : exp.Class) (texts : list (string * string))
       (args : list (string * Expression)).

(** [dict.get] on the items of a dict in insertion order. *)
Fixpoint assoc {A} (key : string) (items : list (string * A)) : option A :=
  match items with
  | [] => None
  | (k, v) :: items' => if bool_decide (k = key) then Some v else assoc key items'
  end.

Module Exp.

Definition cls (e : Expression) : exp.Class :=
  match e with Node c _ _ => c end.
Definition texts (e : Expression) : list (string * string) :=
  match e with Node _ t _ => t end.
Definition args (e : Expression) : list (string * Expression) :=
  match e with Node _ _ a => a end.

(** [isinstance(e, c)] *)
Definition isinstance (e : Expression) (c : exp.Class) : bool :=
  bool_decide (cls e = c).

(** [e.args.get(key)]: a text, an expression, or nothing. *)
Definition get (e : Expression) (key : string) : option (string + Expression) :=
  match assoc key (texts e) with
  | Some s => Some (inl s)
  | None => inr <$> assoc key (args e)
  end.

(** [e.text(key)] *)
Definition text (e : Expression) (key : string) : string :=
  match get e key with
  | Some (inl s) => s
  | Some (inr field) =>
      match cls field with
      | exp.Identifier | exp.Literal | exp.Var =>
          default "" (assoc "this" (texts field))
      | exp.Star => "*"
      | exp.Null => "NULL"
      | _ => ""
      end
  | None => ""
  end.

(** The properties [name], [db] and [catalog] (a table whose [this] is a
    function call is not modelled). *)
Definition name (e : Expression) : string := text e "this".
Definition db (e : Expression) : string := text e "db".
Definition catalog (e : Expression) : string := text e "catalog".

(** [e.iter_expressions()] *)
Definition iter_expressions (e : Expression) : list Expression :=
  snd <$> args e.

Fixpoint size (e : Expression) : nat :=
  match e with
  | Node _ _ a => S (sum_list ((λ p, size p.2) <$> a))
  end.

(** [e.bfs()]: the queue of the breadth-first walk; [fuel] bounds the number
    of nodes visited. *)
Fixpoint bfs (fuel : nat) (queue : list Expression) : list Expression :=
  match fuel, queue with
  | S fuel', node :: queue' =>
      node :: bfs fuel' (queue' ++ iter_expressions node)
  | _, _ => []
  end.

(** [e.walk()] *)
Definition walk (e : Expression) : list Expression := bfs (size e) [e].

(** [e.find_all(c)] and [e.find(c)] *)
Definition find_all (e : Expression) (c : exp.Class) : list Expression :=
  filter (λ node, isinstance node c = true) (walk e).
Definition find (e : Expression) (c : exp.Class) : option Expression :=
  head (find_all e c).

End Exp.

(** [sqlglot.optimizer.scope]: the scopes [traverse_scope] returns refer to
    one another, a scope to its parent and a source to the scope it is bound
    to.  A reference is the position of the scope in the returned list. *)
Inductive ScopeType := ROOT | SUBQUERY | DERIVED_TABLE | CTE | UNION | UDTF.

Global Instance ScopeType_eq_dec : EqDecision ScopeType.
Proof. solve_decision. Defined.

Inductive Source :=
| SourceTable (t : Expression)
| SourceScope (ref : nat).

Record Scope := mkScope {
  parent : option nat;
  scope_type : ScopeType;
  sources : list (string * Source)
}.

(** The operations of the engine the code calls.  [parse] and [parse_one]
    give [None] when the engine raises [ParseError]; a unit of [parse] is
    [None] for an empty statement. *)
Class Sqlglot := {
  parse : string → option Dialects → option (list (option Expression));
  parse_one : string → option Dialects → option Expression;
  traverse_scope : Expression → list Scope;
  sql : Expression → string
}.

(** [re.match(set_regex, text, re.IGNORECASE)] of [KustoKQLStatement]: the
    groups [name] and [value] of the match. *)
Class Regex := {
  match_set_regex : string → option (string * option string)
}.

(** ** Errors and logging *)

Inductive exn :=
| SupersetParseError (message : string)
| AttributeError.

Inductive result (A : Type) :=
| Ok (a : A)
| Raise (e : exn).
Arguments Ok {A} a.
Arguments Raise {A} e.

Definition NotSingleStatement : exn :=
  SupersetParseError "SQLStatement should have exactly one statement".
Definition UnparseableQuery : exn :=
  SupersetParseError "Unable to split query".
Definition InvalidEngine (engine : string) : exn :=
  SupersetParseError ("Invalid engine: " +:+ engine).

Definition result_bind {A B} (r : result A) (f : A → result B) : result B :=
  match r with
  | Ok a => f a
  | Raise e => Raise e
  end.

(** A list comprehension whose element may raise: the first exception ends
    it. *)
Fixpoint result_map {A B} (f : A → result B) (l : list A) : result (list B) :=
  match l with
  | [] => Ok []
  | a :: l' =>
      result_bind (f a) (λ b,
      result_bind (result_map f l') (λ bs, Ok (b :: bs)))
  end.

Inductive LogRecord :=
| Warning (message : string).

(** A computation that logs: its outcome and the records it emitted. *)
Definition logged (A : Type) : Type := result A * list LogRecord.

Definition logged_ret {A} (a : A) : logged A := (Ok a, []).
Definition logged_bind {A B} (m : logged A) (f : A → logged B) : logged B :=
  match m with
  | (Ok a, log) => let '(r, log') := f a in (r, log ++ log')
  | (Raise e, log) => (Raise e, log)
  end.

Fixpoint logged_map {A B} (f : A → logged B) (l : list A) : logged (list B) :=
  match l with
  | [] => logged_ret []
  | a :: l' =>
      logged_bind (f a) (λ b,
      logged_bind (logged_map f l') (λ bs, logged_ret (b :: bs)))
  end.

(** ** Table extraction *)

(** [is_cte(source, scope)]; [scopes] holds the scopes the references of
    [scope] point to. *)
Definition is_cte (scopes : list Scope) (source : Expression) (scope : Scope)
    : bool :=
  let parent_sources :=
    match parent scope with
    | Some p => from_option sources [] (scopes !! p)
    | None => []
    end in
  let ctes_in_scope : gset string :=
    list_to_set (
      '(name, parent_scope) ← parent_sources;
      match parent_scope with
      | SourceScope ref =>
          match scopes !! ref with
          | Some s => if bool_decide (scope_type s = CTE) then [name] else []
          | None => []
          end
      | SourceTable _ => []
      end) in
  bool_decide (Exp.name source ∈ ctes_in_scope).

(** The sources the general case keeps, in the order of the comprehension. *)
Definition scope_sources (scopes : list Scope) : list Expression :=
  scope ← scopes;
  '(_, source) ← sources scope;
  match source with
  | SourceTable t =>
      if Exp.isinstance t exp.Table && negb (is_cte scopes t scope)
      then [t] else []
  | SourceScope _ => []
  end.

(** [Table(source.name, source.db or None, source.catalog or None)] *)
Definition table_of_source (source : Expression) : Table :=
  mkTable (Exp.name source)
          (if bool_decide (Exp.db source ≠ "") then Some (Exp.db source)
           else None)
          (if bool_decide (Exp.catalog source ≠ "") then
             Some (Exp.catalog source)
           else None).

(** The set comprehension that ends [extract_tables_from_statement].  The
    set is one of tables told apart by their fields, as the generated
    [__hash__] tells them apart. *)
Definition tables_of_sources (sources : list Expression) : gset Table :=
  list_to_set (table_of_source <$> sources).

(** The text an f-string gives for [literal.this]. *)
Definition format_this `{Sqlglot} (literal : Expression) : string :=
  match Exp.get literal "this" with
  | Some (inl s) => s
  | Some (inr e) => sql e
  | None => "None"
  end.

Definition extract_tables_from_statement `{Sqlglot} (statement : Expression)
    (dialect : option Dialects) : gset Table :=
  if Exp.isinstance statement exp.Describe then
    tables_of_sources (Exp.find_all statement exp.Table)
  else if Exp.isinstance statement exp.Command then
    match Exp.find statement exp.Literal with
    | None => ∅
    | Some literal =>
        match parse_one ("SELECT " +:+ format_this literal) dialect with
        | None => ∅
        | Some pseudo_query =>
            tables_of_sources (Exp.find_all pseudo_query exp.Table)
        end
    end
  else
    tables_of_sources (scope_sources (traverse_scope statement)).

(** ** Statements *)

Inductive setting :=
| SettingStr (s : string)
| SettingBool (b : bool).

Module SQLStatement.

Record t := mk {
  _parsed : Expression;
  engine : string;
  _dialect : option Dialects;
  tables : gset Table
}.

Definition _parse_statement `{Sqlglot} (statement engine : string)
    : result Expression :=
  let dialect := SQLGLOT_DIALECTS !! engine in
  match parse statement dialect with
  | None => Raise UnparseableQuery
  | Some statements =>
      let statements := omap id statements in
      match statements with
      | [statement] => Ok statement
      | _ => Raise NotSingleStatement
      end
  end.

Definition _extract_tables_from_statement `{Sqlglot} (parsed : Expression)
    (engine : string) : gset Table :=
  let dialect := SQLGLOT_DIALECTS !! engine in
  extract_tables_from_statement parsed dialect.

(** [SQLStatement(statement, engine)], from a text or from a tree. *)
Definition init `{Sqlglot} (statement : string + Expression) (engine : string)
    : result t :=
  let _dialect := SQLGLOT_DIALECTS !! engine in
  result_bind
    (match statement with
     | inl text => _parse_statement text engine
     | inr tree => Ok tree
     end)
    (λ _parsed,
       Ok (mk _parsed engine _dialect
              (_extract_tables_from_statement _parsed engine))).

Definition split_query `{Sqlglot} (query engine : string) : result (list t) :=
  let dialect := SQLGLOT_DIALECTS !! engine in
  match parse query dialect with
  | None => Raise UnparseableQuery
  | Some statements =>
      result_map (λ statement, init (inr statement) engine)
                 (omap id statements)
  end.

(** The test of the loop of [is_mutating] on one node. *)
Definition mutating_node (node : Expression) : bool :=
  match Exp.cls node with
  | exp.Insert | exp.Update | exp.Delete | exp.Merge | exp.Create
  | exp.Drop | exp.TruncateTable => true
  | _ => false
  end
  || (Exp.isinstance node exp.Command && bool_decide (Exp.name node = "ALTER")).

(** [is_mutating]: a call for the statement after [EXPLAIN ANALYZE] uses
    one unit of [fuel]; [None] says the fuel ran out. *)
Fixpoint is_mutating `{Sqlglot} (fuel : nat) (self : t)
    : option (result bool) :=
  if existsb mutating_node (Exp.walk (_parsed self)) then Some (Ok true)
  else if bool_decide (_dialect self = Some POSTGRES)
          && Exp.isinstance (_parsed self) exp.Command
          && bool_decide (Exp.name (_parsed self) = "EXPLAIN") then
    match Exp.get (_parsed self) "expression" with
    | Some (inr expression) =>
        if Py.startswith (Py.upper (Exp.name expression)) "ANALYZE " then
          let analyzed_sql :=
            Py.slice_from (Exp.name expression) (Py.len "ANALYZE ") in
          match fuel with
          | O => None
          | S fuel' =>
              match init (inl analyzed_sql) (engine self) with
              | Ok analyzed => is_mutating fuel' analyzed
              | Raise e => Some (Raise e)
              end
          end
        else Some (Ok false)
    | _ => Some (Raise AttributeError)
    end
  else Some (Ok false).

(** The pairs of the comprehension of [get_settings], in order. *)
Definition setting_pairs (self : t) : list Expression :=
  set_item ← Exp.find_all (_parsed self) exp.SetItem;
  Exp.find_all set_item exp.EQ.

Definition get_settings `{Sqlglot} (self : t) : result (gmap string setting) :=
  foldl (λ acc eq,
           result_bind acc (λ settings,
             match Exp.get eq "this", Exp.get eq "expression" with
             | Some (inr this), Some (inr expression) =>
                 Ok (<[sql this := SettingStr (sql expression)]> settings)
             | _, _ => Raise AttributeError
             end))
        (Ok ∅) (setting_pairs self).

End SQLStatement.

Module KustoKQLStatement.

Record t := mk {
  _parsed : string;
  engine : string;
  tables : gset Table
}.

Definition _parse_statement (statement engine : string) : result string :=
  if bool_decide (engine ≠ "kustokql") then Raise (InvalidEngine engine)
  else
    let statements := split_kql statement in
    match statements with
    | [statement] => Ok (Py.strip statement)
    | _ => Raise NotSingleStatement
    end.

Definition table_extraction_warning : LogRecord :=
  Warning ("Kusto KQL doesn't support table extraction. This means that data access "
           +:+ "roles will not be enforced by Superset in the database.").

Definition _extract_tables_from_statement (parsed engine : string)
    : gset Table * list LogRecord :=
  (∅, [table_extraction_warning]).

(** [KustoKQLStatement(statement, engine)] *)
Definition init (statement engine : string) : logged t :=
  match _parse_statement statement engine with
  | Raise e => (Raise e, [])
  | Ok parsed =>
      let '(tables, log) := _extract_tables_from_statement parsed engine in
      (Ok (mk parsed engine tables), log)
  end.

Definition split_query (query engine : string) : logged (list t) :=
  logged_map (λ statement, init statement engine) (split_kql query).

Definition get_settings `{Regex} (self : t) : gmap string setting :=
  match match_set_regex (_parsed self) with
  | Some (name, value) =>
      {[ name := match value with
                 | Some v => SettingStr v
                 | None => SettingBool true
                 end ]}
  | None => ∅
  end.

Definition is_mutating (self : t) : bool :=
  Py.startswith (_parsed self) "." && negb (Py.startswith (_parsed self) ".show").

End KustoKQLStatement.

(** ** Scripts *)

Inductive Statement :=
| SQL (s : SQLStatement.t)
| KQL (s : KustoKQLStatement.t).

Module SQLScript.

Record t := mk { statements : list Statement }.

(** [SQLScript(query, engine)]: [special_engines] has the one key
    [kustokql]. *)
Definition init `{Sqlglot} (query engine : string) : logged t :=
  if bool_decide (engine = "kustokql") then
    logged_bind (KustoKQLStatement.split_query query engine)
                (λ l, logged_ret (mk (KQL <$> l)))
  else
    (result_bind (SQLStatement.split_query query engine)
                 (λ l, Ok (mk (SQL <$> l))), []).

Definition statement_get_settings `{Sqlglot} `{Regex} (statement : Statement)
    : result (gmap string setting) :=
  match statement with
  | SQL s => SQLStatement.get_settings s
  | KQL s => Ok (KustoKQLStatement.get_settings s)
  end.

(** [settings.update(new)] keeps the value of [new] for a key of both. *)
Definition update (settings new : gmap string setting) : gmap string setting :=
  new ∪ settings.

Definition get_settings `{Sqlglot} `{Regex} (self : t)
    : result (gmap string setting) :=
  foldl (λ acc statement,
           result_bind acc (λ settings,
           result_bind (statement_get_settings statement) (λ new,
             Ok (update settings new))))
        (Ok ∅) (statements self).

End SQLScript.

(** ** The splitter as an automaton

    The loop of [split_kql] looks behind the current index only: [body]
    reads the two characters before it.  [Scan] is the same machine on the
    characters read so far ([before], last one first); [scan_run] below
    proves the two equal. *)
Module Scan.

Definition backtick : ascii := "`"%char.

(** The current character closes a run of three backticks. *)
Definition triple (before : list ascii) (c : ascii) : bool :=
  bool_decide (c = backtick)
  && match before with
     | b1 :: b2 :: _ => bool_decide (b1 = backtick) && bool_decide (b2 = backtick)
     | _ => false
     end.

Definition escaped (before : list ascii) : bool :=
  bool_decide (head before = Some Kql.backslash).

Definition step (st : KQLSplitState) (before : list ascii) (c : ascii)
    : KQLSplitState :=
  match st with
  | OUTSIDE_STRING =>
      if bool_decide (c = ";"%char) then OUTSIDE_STRING
      else if bool_decide (c = "'"%char) then INSIDE_SINGLE_QUOTED_STRING
      else if bool_decide (c = Kql.double_quote) then INSIDE_DOUBLE_QUOTED_STRING
      else if triple before c then INSIDE_MULTILINE_STRING
      else OUTSIDE_STRING
  | INSIDE_SINGLE_QUOTED_STRING =>
      if bool_decide (c = "'"%char) && negb (escaped before)
      then OUTSIDE_STRING else st
  | INSIDE_DOUBLE_QUOTED_STRING =>
      if bool_decide (c = Kql.double_quote) && negb (escaped before)
      then OUTSIDE_STRING else st
  | INSIDE_MULTILINE_STRING =>
      if triple before c then OUTSIDE_STRING else st
  end.

(** A separator outside any string literal. *)
Definition separator (st : KQLSplitState) (c : ascii) : bool :=
  bool_decide (st = OUTSIDE_STRING) && bool_decide (c = ";"%char).

(** The state after [rest]. *)
Fixpoint final (st : KQLSplitState) (before rest : list ascii)
    : KQLSplitState :=
  match rest with
  | [] => st
  | c :: rest' => final (step st before c) (c :: before) rest'
  end.

(** The segments [rest] closes; [pending] is the open segment, last
    character first. *)
Fixpoint segments (st : KQLSplitState) (before pending rest : list ascii)
    : list (list ascii) :=
  match rest with
  | [] => []
  | c :: rest' =>
      if separator st c then
        rev pending :: segments st (c :: before) [] rest'
      else
        segments (step st before c) (c :: before) (c :: pending) rest'
  end.

(** The number of separators of [rest] outside any string literal. *)
Fixpoint separators (st : KQLSplitState) (before rest : list ascii) : nat :=
  match rest with
  | [] => O
  | c :: rest' =>
      (if separator st c then 1 else 0)%nat
      + separators (step st before c) (c :: before) rest'
  end.

(** *** Notions of the proofs *)

(** What a step reads of the characters before it. *)
Definition look (before : list ascii) : bool * bool * bool :=
  (bool_decide (head before = Some Kql.backslash),
   bool_decide (head before = Some backtick),
   match before with
   | b1 :: b2 :: _ => bool_decide (b1 = backtick) && bool_decide (b2 = backtick)
   | _ => false
   end).

(** A text with no top-level separator that ends outside any literal. *)
Definition closed (s : list ascii) : Prop :=
  separators OUTSIDE_STRING [] s = 0%nat
  ∧ final OUTSIDE_STRING [] s = OUTSIDE_STRING.

(** A character the automaton does not react to. *)
Definition plain (c : ascii) : Prop :=
  c ≠ ";"%char ∧ c ≠ "'"%char ∧ c ≠ Kql.double_quote ∧ c ≠ backtick.

Definition code (c : ascii) : Z := Z.of_N (N_of_ascii c).

End Scan.

(** The number of top-level separators of a text, outside any string
    literal, and the state in which the text ends. *)
Definition top_level_separators (kql : string) : nat :=
  Scan.separators OUTSIDE_STRING [] (Py.chars kql).
Definition state_after (kql : string) : KQLSplitState :=
  Scan.final OUTSIDE_STRING [] (Py.chars kql).

(** ** The nodes of a tree *)

(** [node_of node e]: [node] is [e] or a node below it. *)
Inductive node_of : Expression → Expression → Prop :=
| node_self (e : Expression) : node_of e e
| node_child (node child e : Expression) :
    child ∈ Exp.iter_expressions e → node_of node child → node_of node e.

(** A node of one of the classes [is_mutating] looks for. *)
Definition mutating_class (c : exp.Class) : Prop :=
  c ∈ [exp.Insert; exp.Update; exp.Delete; exp.Merge; exp.Create; exp.Drop;
       exp.TruncateTable].

(** The tree of the statement holds a node [is_mutating] looks for. *)
Definition has_mutating_node (e : Expression) : Prop :=
  ∃ node, node_of node e
          ∧ (mutating_class (Exp.cls node)
             ∨ (Exp.cls node = exp.Command ∧ Exp.name node = "ALTER")).

(** The statement is, for the Postgres dialect, the command [EXPLAIN] whose
    text starts with [ANALYZE ], in any case of the letters; [analyzed_sql]
    is the text that follows. *)
Definition explain_analyze (self : SQLStatement.t) (analyzed_sql : string)
    : Prop :=
  SQLStatement._dialect self = Some POSTGRES
  ∧ Exp.cls (SQLStatement._parsed self) = exp.Command
  ∧ Exp.name (SQLStatement._parsed self) = "EXPLAIN"
  ∧ ∃ expression,
      Exp.get (SQLStatement._parsed self) "expression" = Some (inr expression)
      ∧ Py.startswith (Py.upper (Exp.name expression)) "ANALYZE " = true
      ∧ analyzed_sql = Py.slice_from (Exp.name expression) 8.

(** The value of a key after the settings of the statements of a script, in
    order: the one of the last statement that sets the key. *)
Fixpoint last_assignment (settings : list (gmap string setting)) (key : string)
    : option setting :=
  match settings with
  | [] => None
  | m :: settings' =>
      match last_assignment settings' key with
      | Some v => Some v
      | None => m !! key
      end
  end.

(** ** Trees, scopes and an engine for the examples

    The trees sqlglot builds for the statements of the examples, the scopes
    it resolves, and an engine that knows these statements only. *)
Module Examples.

Definition identifier (name : string) : Expression :=
  Node exp.Identifier [("this", name)] [].
Definition table_ref (name : string) : Expression :=
  Node exp.Table [] [("this", identifier name)].
Definition column (name : string) : Expression :=
  Node (exp.Other "Column") [] [("this", identifier name)].
Definition number (n : string) : Expression :=
  Node exp.Literal [("this", n); ("is_string", "False")] [].
Definition text_literal (s : string) : Expression :=
  Node exp.Literal [("this", s); ("is_string", "True")] [].
Definition eq_node (this expression : Expression) : Expression :=
  Node exp.EQ [] [("this", this); ("expression", expression)].

(** [INSERT INTO t VALUES (1)] *)
Definition insert_tree : Expression :=
  Node exp.Insert []
    [("this", table_ref "t");
     ("expression",
      Node (exp.Other "Values") []
        [("expressions", Node (exp.Other "Tuple") [] [("expressions", number "1")])])].

(** [UPDATE t SET x=1] *)
Definition update_tree : Expression :=
  Node exp.Update []
    [("this", table_ref "t"); ("expressions", eq_node (column "x") (number "1"))].

(** [DELETE FROM t] *)
Definition delete_tree : Expression :=
  Node exp.Delete [] [("this", table_ref "t")].

(** [CREATE TABLE t (x INT)] *)
Definition create_tree : Expression :=
  Node exp.Create [("kind", "TABLE")]
    [("this",
      Node (exp.Other "Schema") []
        [("this", table_ref "t");
         ("expressions",
          Node (exp.Other "ColumnDef") []
            [("this", identifier "x");
             ("kind", Node (exp.Other "DataType") [("this", "INT")] [])])])].

(** [DROP TABLE t] *)
Definition drop_tree : Expression :=
  Node exp.Drop [("kind", "TABLE")] [("this", table_ref "t")].

(** [SELECT 1] *)
Definition select_one_tree : Expression :=
  Node exp.Select [] [("expressions", number "1")].

(** [EXPLAIN ANALYZE DELETE FROM t], which the engine keeps as a command
    with the text after its first word. *)
Definition explain_analyze_delete_tree : Expression :=
  Node exp.Command [("this", "EXPLAIN")]
    [("expression", text_literal "ANALYZE DELETE FROM t")].

(** [EXPLAIN ANALYZE], a line feed and [DELETE FROM t]: the command keeps
    the text after its first word as it is written. *)
Definition explain_analyze_line_feed_tree : Expression :=
  Node exp.Command [("this", "EXPLAIN")]
    [("expression",
      text_literal ("ANALYZE" +:+ String "010" "DELETE FROM t"))].

(** [SET foo = 'bar'] and [SET foo = 'baz'] *)
Definition set_tree (name value : string) : Expression :=
  Node (exp.Other "Set") []
    [("expressions",
      Node exp.SetItem [] [("this", eq_node (column name) (text_literal value))])].

(** [WITH foo AS (SELECT * FROM target_table) SELECT * FROM foo] *)
Definition star : Expression := Node exp.Star [] [].
Definition cte_tree : Expression :=
  Node exp.Select []
    [("with",
      Node (exp.Other "With") []
        [("expressions",
          Node (exp.Other "CTE") []
            [("this",
              Node exp.Select []
                [("expressions", star);
                 ("from", Node (exp.Other "From") [] [("this", table_ref "target_table")])]);
             ("alias", Node (exp.Other "TableAlias") [] [("this", identifier "foo")])])]);
     ("expressions", star);
     ("from", Node (exp.Other "From") [] [("this", table_ref "foo")])].

(** The scopes of [cte_tree]: the scope of the CTE first, then the root
    scope, in which [foo] is bound to the scope of the CTE. *)
Definition cte_scopes : list Scope :=
  [ mkScope (Some 1%nat) CTE [("target_table", SourceTable (table_ref "target_table"))];
    mkScope None ROOT [("foo", SourceScope 0)] ].

(** Scopes in which a table named as a CTE of the parent scope is a source
    of its own: a subquery that reads [foo] below the scope that binds
    [foo]. *)
Definition shadow_scopes : list Scope :=
  [ mkScope (Some 2%nat) CTE [("target_table", SourceTable (table_ref "target_table"))];
    mkScope (Some 2%nat) SUBQUERY [("foo", SourceTable (table_ref "foo"))];
    mkScope None ROOT [("foo", SourceScope 0); ("x", SourceScope 1)] ].

Definition example_statements : list (string * list (option Expression)) :=
  [ ("INSERT INTO t VALUES (1)", [Some insert_tree]);
    ("UPDATE t SET x=1", [Some update_tree]);
    ("DELETE FROM t", [Some delete_tree]);
    ("CREATE TABLE t (x INT)", [Some create_tree]);
    ("DROP TABLE t", [Some drop_tree]);
    ("SELECT 1", [Some select_one_tree]);
    ("EXPLAIN ANALYZE DELETE FROM t", [Some explain_analyze_delete_tree]);
    ("SET foo = 'bar'", [Some (set_tree "foo" "bar")]);
    ("SET foo='bar'; SET foo='baz'",
     [Some (set_tree "foo" "bar"); Some (set_tree "foo" "baz")]);
    ("WITH foo AS (SELECT * FROM target_table) SELECT * FROM foo",
     [Some cte_tree]);
    ("SELECT 1; SELECT 1", [Some select_one_tree; Some select_one_tree]);
    ("SELECT 1;;", [Some select_one_tree; None]);
    ("", [None]) ].

(** The generator on the nodes of the settings: a text literal in quotes,
    a column by its name. *)
Definition example_sql (e : Expression) : string :=
  match Exp.cls e with
  | exp.Literal =>
      if bool_decide (assoc "is_string" (Exp.texts e) = Some "True")
      then "'" +:+ Exp.name e +:+ "'" else Exp.name e
  | exp.Identifier => Exp.name e
  | exp.Other "Column" => Exp.name e
  | _ => ""
  end.

Definition engine : Sqlglot := {|
  parse text _ := assoc text example_statements;
  parse_one _ _ := None;
  traverse_scope _ := cte_scopes;
  sql := example_sql
|}.

(** A matcher of [set_regex] that never matches. *)
Definition regex : Regex := {| match_set_regex _ := None |}.

End Examples.

(** ** The canonical string of a table, in the words of the specification *)
Module Canonical.

(** The percent-encoding of one byte: [.] is reserved too. *)
Definition percent_encode_char (c : ascii) : list ascii :=
  if bool_decide (c = "."%char) then Py.chars "%2E"
  else if Urllib.always_safe c then [c]
  else ["%"%char; Urllib.hex_digit (N_of_ascii c / 16);
        Urllib.hex_digit (N_of_ascii c mod 16)].

Definition percent_encode (part : string) : string :=
  Py.text (c ← Py.chars part; percent_encode_char c).

Definition present (part : option string) : list string :=
  match part with
  | Some p => if bool_decide (p = "") then [] else [p]
  | None => []
  end.

(** Catalog, schema and table in that order, the absent and the empty ones
    left out, each percent-encoded, joined with [.]. *)
Definition canonical (t : Table) : string :=
  Py.join "."
    (percent_encode
       <$> present (catalog t) ++ present (schema t) ++ present (Some (table t))).

(** Reading a canonical string back: [unquote] undoes the percent-encoding
    and [split_dot] cuts at every [.]. *)
Definition unhex (c : ascii) : N :=
  let n := N_of_ascii c in
  if (n <? 58)%N then (n - 48)%N else (n - 55)%N.

Fixpoint unquote (l : list ascii) : list ascii :=
  match l with
  | [] => []
  | c :: r =>
      if bool_decide (c = "%"%char) then
        match r with
        | a :: b :: r' => ascii_of_N (unhex a * 16 + unhex b) :: unquote r'
        | _ => c :: unquote r
        end
      else c :: unquote r
  end.

Fixpoint split_dot (l : list ascii) : list (list ascii) :=
  match l with
  | [] => [[]]
  | c :: r =>
      if bool_decide (c = "."%char) then [] :: split_dot r
      else
        match split_dot r with
        | part :: parts => (c :: part) :: parts
        | [] => [[c]]
        end
  end.

Definition read (s : string) : list string :=
  if bool_decide (s = "") then []
  else (λ part, Py.text (unquote part)) <$> split_dot (Py.chars s).

End Canonical.

(** ** The rest of the statements and of the script *)

(** The generator of the engine: [Dialect.get_or_raise(dialect).generate(
    tree, copy=False, comments=comments, pretty=True)]. *)
Class Generator := {
  generate : option Dialects → Expression → bool → string
}.

Module Format.

(** [SQLStatement.format] *)
Definition sql_statement `{Generator} (self : SQLStatement.t) (comments : bool)
    : string :=
  generate (SQLStatement._dialect self) (SQLStatement._parsed self) comments.

(** [KustoKQLStatement.format] *)
Definition kql_statement (self : KustoKQLStatement.t) (comments : bool)
    : string :=
  KustoKQLStatement._parsed self.

Definition statement `{Generator} (s : Statement) (comments : bool) : string :=
  match s with
  | SQL s => sql_statement s comments
  | KQL s => kql_statement s comments
  end.

(** The separator of [SQLScript.format]: a semicolon and a line feed. *)
Definition separator : string := String ";"%char (String "010"%char EmptyString).

(** [SQLScript.format] *)
Definition script `{Generator} (self : SQLScript.t) (comments : bool) : string :=
  Py.join separator ((λ s, statement s comments) <$> SQLScript.statements self).

End Format.

Module Mutation.

(** [statement.is_mutating()] for either variant; the grammar-backed one
    takes fuel, and may raise. *)
Definition statement `{Sqlglot} (fuel : nat) (s : Statement)
    : option (result bool) :=
  match s with
  | SQL s => SQLStatement.is_mutating fuel s
  | KQL s => Some (Ok (KustoKQLStatement.is_mutating s))
  end.

(** [any(statement.is_mutating() for statement in statements)]: the
    generator is consumed up to the first true answer. *)
Fixpoint any `{Sqlglot} (fuel : nat) (statements : list Statement)
    : option (result bool) :=
  match statements with
  | [] => Some (Ok false)
  | s :: statements' =>
      match statement fuel s with
      | Some (Ok true) => Some (Ok true)
      | Some (Ok false) => any fuel statements'
      | Some (Raise e) => Some (Raise e)
      | None => None
      end
  end.

(** [SQLScript.has_mutation] *)
Definition has_mutation `{Sqlglot} (fuel : nat) (self : SQLScript.t)
    : option (result bool) :=
  any fuel (SQLScript.statements self).

End Mutation.

(** ** Notions of the properties of the splitter *)
Module Segments.

(** The text left open when the scan ends: what follows the last top-level
    separator. *)
Fixpoint remainder (st : KQLSplitState) (before pending rest : list ascii)
    : list ascii :=
  match rest with
  | [] => rev pending
  | c :: rest' =>
      if Scan.separator st c then remainder st (c :: before) [] rest'
      else remainder (Scan.step st before c) (c :: before) (c :: pending) rest'
  end.

(** The part of the scanned text that [split_kql] returns in no segment. *)
Definition dropped (kql : string) : string :=
  Py.text (remainder OUTSIDE_STRING [] [] (Py.chars (Kql.query_of kql))).

(** The segments, each followed by a separator. *)
Definition terminated (segments : list string) : string :=
  Py.text (segment ← segments; Py.chars segment ++ [";"%char]).

(** [text.split(";")], the open piece being [pending], last character
    first. *)
Fixpoint pieces (pending rest : list ascii) : list (list ascii) :=
  match rest with
  | [] => [rev pending]
  | c :: rest' =>
      if bool_decide (c = ";"%char) then rev pending :: pieces [] rest'
      else pieces (c :: pending) rest'
  end.

(** [text.split(";")] *)
Definition split (text : string) : list string :=
  Py.text <$> pieces [] (Py.chars text).

(** A character that opens or closes no string literal. *)
Definition unquoted (c : ascii) : Prop :=
  c ≠ "'"%char ∧ c ≠ Kql.double_quote ∧ c ≠ Scan.backtick.

(** A string literal in quotes [q], and one in triple backticks. *)
Definition quoted (q : ascii) (content : list ascii) : list ascii :=
  q :: content ++ [q].
Definition fence : list ascii :=
  [Scan.backtick; Scan.backtick; Scan.backtick].
Definition multiline (content : list ascii) : list ascii :=
  fence ++ content ++ fence.

End Segments.

(** ** Notions of the properties of [strip] *)
Module Strip.

(** No white space at the head of [l]: [lstrip_chars] stops. *)
Definition stops_left (l : list ascii) : Prop :=
  match l with
  | [] => True
  | c1 :: l1 =>
      Py.space1 c1 = false
      ∧ match l1 with
        | [] => True
        | c2 :: l2 =>
            Py.space2 c1 c2 = false
            ∧ match l2 with
              | [] => True
              | c3 :: _ => Py.space3 c1 c2 c3 = false
              end
        end
  end.

(** The same for [rstrip_rev_chars], on the reversed list. *)
Definition stops_right (l : list ascii) : Prop :=
  match l with
  | [] => True
  | c1 :: l1 =>
      Py.space1 c1 = false
      ∧ match l1 with
        | [] => True
        | c2 :: l2 =>
            Py.space2 c2 c1 = false
            ∧ match l2 with
              | [] => True
              | c3 :: _ => Py.space3 c3 c2 c1 = false
              end
        end
  end.

(** A byte of white space reacts with nothing in the automaton: it is no
    separator, no quote, no backtick and no backslash. *)
Definition blank (c : ascii) : Prop :=
  Scan.plain c ∧ c ≠ Kql.backslash.

(** A text with white space at neither end. *)
Definition trimmed (s : string) : Prop :=
  stops_left (Py.chars s) ∧ stops_right (rev (Py.chars s)).

End Strip.

(** ** Notions of the properties of [format] *)
Module Joined.

Definition line_feed : ascii := "010"%char.

(** A text that holds no top-level separator and ends outside any literal,
    after any text that ends as the empty text does for the scan. *)
Definition closed_anywhere (l : list ascii) : Prop :=
  ∀ before, Scan.look before = Scan.look [] →
    Scan.separators OUTSIDE_STRING before l = 0%nat
    ∧ Scan.final OUTSIDE_STRING before l = OUTSIDE_STRING.

(** The segments of a formatted script: the first statement, and each other
    one after the line feed of the separator. *)
Definition pieces (first : string) (others : list string) : list (list ascii) :=
  Py.chars first :: ((λ s, line_feed :: Py.chars s) <$> others).

End Joined.

(** ** More examples *)
Module MoreExamples.

(** The scope of [SELECT * FROM a JOIN b ON a.id=b.id]: one root scope with
    the two tables as sources. *)
Definition join_scopes : list Scope :=
  [ mkScope None ROOT
      [("a", SourceTable (Examples.table_ref "a"));
       ("b", SourceTable (Examples.table_ref "b"))] ].

Definition join_tree : Expression :=
  Node exp.Select []
    [("expressions", Examples.star);
     ("from", Node (exp.Other "From") [] [("this", Examples.table_ref "a")]);
     ("joins", Node (exp.Other "Join") [] [("this", Examples.table_ref "b")])].

(** An engine that resolves the scopes of [join_tree]. *)
Definition join_engine : Sqlglot := {|
  parse text _ := if bool_decide (text = "SELECT * FROM a JOIN b ON a.id=b.id")
                  then Some [Some join_tree] else None;
  parse_one _ _ := None;
  traverse_scope _ := join_scopes;
  sql := Examples.example_sql
|}.

End MoreExamples.

(** ** Notions of the properties of tables *)
Module Qualified.

(** A table as [[catalog.]schema.]table names it: the table is named, a
    qualifier that is there is not empty, and there is no catalog without
    a schema. *)
Definition well_qualified (t : Table) : Prop :=
  table t ≠ ""
  ∧ schema t ≠ Some "" ∧ catalog t ≠ Some ""
  ∧ (schema t = None → catalog t = None).

End Qualified.

(** ** Notions of the properties of the extraction of tables *)

(** [source] is a node the extraction of the tables of [statement] reads:
    a node of the tree for a [DESCRIBE] statement, a node of the pseudo-query
    for a command, and a table bound in a scope of the tree otherwise. *)
Definition read_source `{Sqlglot} (statement : Expression)
    (dialect : option Dialects) (source : Expression) : Prop :=
  (Exp.cls statement = exp.Describe ∧ node_of source statement)
  ∨ (Exp.cls statement ≠ exp.Describe ∧ Exp.cls statement = exp.Command
     ∧ ∃ literal pseudo_query,
         Exp.find statement exp.Literal = Some literal
         ∧ parse_one ("SELECT " +:+ format_this literal) dialect
           = Some pseudo_query
         ∧ node_of source pseudo_query)
  ∨ (Exp.cls statement ≠ exp.Describe ∧ Exp.cls statement ≠ exp.Command
     ∧ ∃ scope key,
         scope ∈ traverse_scope statement
         ∧ (key, SourceTable source) ∈ sources scope).

(** * Properties *)


(** ** Python text *)

Lemma chars_text (l : list ascii) : Py.chars (Py.text l) = l.
Proof. apply list_ascii_of_string_of_list_ascii. Qed.

Lemma text_chars (s : string) : Py.text (Py.chars s) = s.
Proof. apply string_of_list_ascii_of_string. Qed.

Lemma text_inj (l1 l2 : list ascii) : Py.text l1 = Py.text l2 → l1 = l2.
Proof. intros H. rewrite <- (chars_text l1), <- (chars_text l2). by rewrite H. Qed.

Lemma chars_app (s1 s2 : string) :
  Py.chars (s1 +:+ s2) = Py.chars s1 ++ Py.chars s2.
Proof. induction s1 as [|a s1 IH]; simpl; [done|]. unfold Py.chars in *. simpl. by rewrite IH. Qed.

Lemma len_text (l : list ascii) : Py.len (Py.text l) = Z.of_nat (length l).
Proof. unfold Py.len. by rewrite chars_text. Qed.

(** A slice between two indices in range. *)
Lemma slice_text (l : list ascii) (a b : nat) :
  (a ≤ b ≤ length l)%nat →
  Py.slice (Py.text l) (Z.of_nat a) (Z.of_nat b) = Py.text (take (b - a) (drop a l)).
Proof.
  intros H. unfold Py.slice, Py.bound. rewrite len_text, chars_text.
  destruct (Z.ltb_spec (Z.of_nat a) 0); [lia|].
  destruct (Z.ltb_spec (Z.of_nat b) 0); [lia|].
  rewrite !Z.min_l by lia.
  by replace (Z.to_nat (Z.of_nat b - Z.of_nat a)) with (b - a)%nat by lia; rewrite Nat2Z.id.
Qed.

(** The subscript [query[i - 1]] of the loop raises no [IndexError]. *)
Lemma getitem_before (s : string) (i : Z) :
  0 ≤ i < Py.len s → is_Some (Py.getitem s (i - 1)).
Proof.
  intros H. unfold Py.getitem, Py.index, Py.len in *.
  destruct (Z.ltb_spec (i - 1) 0).
  - destruct (Z.leb_spec 0 (i - 1 + Z.of_nat (length (Py.chars s)))); [|lia].
    destruct (Z.ltb_spec (i - 1 + Z.of_nat (length (Py.chars s)))
                (Z.of_nat (length (Py.chars s)))); [|lia].
    apply lookup_lt_is_Some. lia.
  - destruct (Z.leb_spec 0 (i - 1)); [|lia].
    destruct (Z.ltb_spec (i - 1) (Z.of_nat (length (Py.chars s)))); [|lia].
    apply lookup_lt_is_Some. lia.
Qed.

(** The text of a segment that starts at [length front]. *)
Lemma slice_segment (front pending post : list ascii) :
  Py.slice (Py.text (front ++ pending ++ post)) (Z.of_nat (length front))
           (Z.of_nat (length (front ++ pending)))
  = Py.text pending.
Proof.
  rewrite slice_text by (rewrite !length_app; lia).
  rewrite drop_app_length, length_app.
  replace (length front + length pending - length front)%nat with (length pending) by lia.
  by rewrite take_app_length.
Qed.

(** The two characters before index [length pre], as [body] reads them. *)
Lemma slice_lookback (pre post : list ascii) (c : ascii) :
  Py.slice (Py.text (pre ++ c :: post)) (Z.of_nat (length pre) - 2) (Z.of_nat (length pre))
  = match rev pre with
    | b1 :: b2 :: _ => Py.text [b2; b1]
    | _ => ""
    end.
Proof.
  rewrite <- (rev_involutive pre) at 1 2 3.
  destruct (rev pre) as [|b1 [|b2 r]]; simpl rev.
  - unfold Py.slice, Py.bound. rewrite len_text, chars_text. simpl length.
    destruct (Z.ltb_spec (Z.of_nat 0 - 2) 0); [|lia].
    destruct (Z.ltb_spec (Z.of_nat 0) 0); [lia|].
    match goal with |- context [take ?n] => replace n with 0%nat by lia end.
    done.
  - unfold Py.slice, Py.bound. rewrite len_text, chars_text. simpl length.
    destruct (Z.ltb_spec (Z.of_nat 1 - 2) 0); [|lia].
    destruct (Z.ltb_spec (Z.of_nat 1) 0); [lia|].
    match goal with |- context [take ?n] => replace n with 0%nat by lia end.
    done.
  - replace ((rev r ++ [b2]) ++ [b1]) with (rev r ++ [b2; b1])
      by (by rewrite <- app_assoc).
    replace (Z.of_nat (length (rev r ++ [b2; b1])) - 2)
      with (Z.of_nat (length (rev r))) by (rewrite length_app; simpl; lia).
    rewrite <- app_assoc. apply slice_segment.
Qed.

(** The character before index [length pre], when there is one. *)
Lemma getitem_lookback (pre post : list ascii) (c : ascii) :
  pre ≠ [] →
  Py.getitem (Py.text (pre ++ c :: post)) (Z.of_nat (length pre) - 1) = head (rev pre).
Proof.
  intros Hne. rewrite <- (rev_involutive pre) in *.
  destruct (rev pre) as [|b1 r]; [done|]. rewrite rev_involutive. simpl rev.
  unfold Py.getitem, Py.index. rewrite len_text, chars_text, <- app_assoc.
  rewrite !length_app. simpl length.
  destruct (Z.ltb_spec (Z.of_nat (length (rev r) + 1) - 1) 0); [lia|].
  destruct (Z.leb_spec 0 (Z.of_nat (length (rev r) + 1) - 1)); [|lia].
  destruct (Z.ltb_spec (Z.of_nat (length (rev r) + 1) - 1)
              (Z.of_nat (length (rev r) + (1 + S (length post))))); [|lia].
  simpl. replace (Z.to_nat (Z.of_nat (length (rev r) + 1) - 1)) with (length (rev r) + 0)%nat by lia.
  by rewrite lookup_app_r, Nat.add_comm, Nat.add_sub by lia.
Qed.


(** ** The loop of [split_kql] is the automaton *)

Lemma lookback_triple (pre : list ascii) (c : ascii) :
  bool_decide (c = "`"%char)
  && bool_decide (match rev pre with
                  | b1 :: b2 :: _ => Py.text [b2; b1]
                  | _ => ""
                  end = "``")
  = Scan.triple (rev pre) c.
Proof.
  unfold Scan.triple, Scan.backtick. f_equal.
  destruct (rev pre) as [|b1 [|b2 r]]; [done..|].
  repeat case_bool_decide; simpl in *; subst; try done; naive_solver.
Qed.

(** One turn of the loop is one step of the automaton. *)
Lemma body_step (pre post : list ascii) (c : ascii) (v : Kql.vars) :
  Kql.state v = OUTSIDE_STRING ∨ pre ≠ [] →
  Kql.body (Py.text (pre ++ c :: post)) (Z.of_nat (length pre)) c v
  = if Scan.separator (Kql.state v) c then
      Kql.Vars (Kql.statements v
                ++ [Py.slice (Py.text (pre ++ c :: post)) (Kql.statement_start v)
                             (Z.of_nat (length pre))])
               (Kql.state v) (Z.of_nat (length pre) + 1)
    else Kql.set_state v (Scan.step (Kql.state v) (rev pre) c).
Proof.
  intros Hpre. unfold Kql.body. rewrite slice_lookback, lookback_triple.
  unfold Scan.separator, Scan.step, Kql.set_state, Scan.escaped.
  destruct v as [stmts st start]; simpl in *.
  destruct st; simpl.
  - repeat case_bool_decide; try done.
    all: by destruct (Scan.triple (rev pre) c).
  - destruct Hpre as [|Hpre]; [done|]. rewrite getitem_lookback by done.
    repeat case_bool_decide; simpl; try done; naive_solver.
  - destruct Hpre as [|Hpre]; [done|]. rewrite getitem_lookback by done.
    repeat case_bool_decide; simpl; try done; naive_solver.
  - rewrite lookback_triple. by destruct (Scan.triple (rev pre) c).
Qed.

(** The loop from index [length (front ++ pending)] on, the open segment
    being [pending]. *)
Lemma scan_for_enumerate (rest front pending : list ascii) (stmts : list string)
    (st : KQLSplitState) :
  st = OUTSIDE_STRING ∨ front ++ pending ≠ [] →
  let v := Kql.for_enumerate (Py.text (front ++ pending ++ rest))
             (Z.of_nat (length (front ++ pending))) rest
             (Kql.Vars stmts st (Z.of_nat (length front))) in
  Kql.statements v
  = stmts ++ (Py.text <$> Scan.segments st (rev (front ++ pending)) (rev pending) rest)
  ∧ Kql.state v = Scan.final st (rev (front ++ pending)) rest.
Proof.
  revert front pending stmts st.
  induction rest as [|c rest IH]; intros front pending stmts st Hpre; simpl.
  { by rewrite app_nil_r. }
  rewrite (app_assoc front pending (c :: rest)).
  rewrite body_step by done. simpl.
  assert (front ++ pending ++ [c] ≠ []) as Hne by (by destruct front, pending).
  replace ((front ++ pending) ++ c :: rest)
    with (((front ++ pending) ++ [c]) ++ rest) by (by rewrite <- app_assoc).
  replace (Z.of_nat (length (front ++ pending)) + 1)
    with (Z.of_nat (length ((front ++ pending) ++ [c])))
    by (rewrite (length_app _ [c]); simpl; lia).
  destruct (Scan.separator st c) eqn:Hsep.
  - apply andb_prop in Hsep as [Hst%bool_decide_eq_true Hc%bool_decide_eq_true].
    rewrite <- !app_assoc, slice_segment.
    pose proof (IH ((front ++ pending) ++ [c]) [] (stmts ++ [Py.text pending]) st) as H.
    rewrite app_nil_r in H. simpl in H.
    rewrite rev_app_distr in H. simpl in H.
    rewrite rev_involutive, <- !app_assoc in *. simpl.
    subst st c. simpl in *. apply H. by left.
  - pose proof (IH front (pending ++ [c]) stmts
                  (Scan.step st (rev (front ++ pending)) c)) as H.
    rewrite !rev_app_distr in H. simpl in H. rewrite <- rev_app_distr in H.
    unfold Kql.set_state. simpl. rewrite <- !app_assoc in *.
    apply H. by right.
Qed.


(** The loop over a whole query. *)
Lemma scan_run (query : string) :
  Kql.statements (Kql.run query)
  = Py.text <$> Scan.segments OUTSIDE_STRING [] [] (Py.chars query)
  ∧ Kql.state (Kql.run query) = Scan.final OUTSIDE_STRING [] (Py.chars query).
Proof.
  pose proof (scan_for_enumerate (Py.chars query) [] [] [] OUTSIDE_STRING) as H.
  simpl in H. rewrite text_chars in H. apply H. by left.
Qed.

Lemma split_kql_segments (kql : string) :
  split_kql kql
  = Py.text <$> Scan.segments OUTSIDE_STRING [] [] (Py.chars (Kql.query_of kql)).
Proof. apply scan_run. Qed.

Lemma segments_length (rest : list ascii) (st : KQLSplitState)
    (before pending : list ascii) :
  length (Scan.segments st before pending rest) = Scan.separators st before rest.
Proof.
  revert st before pending.
  induction rest as [|c rest IH]; intros st before pending; simpl; [done|].
  destruct (Scan.separator st c) eqn:Hsep; simpl; rewrite IH; [|done].
  apply andb_prop in Hsep as [Hst%bool_decide_eq_true Hc%bool_decide_eq_true].
  by subst.
Qed.

Lemma final_app (l1 l2 : list ascii) (st : KQLSplitState) (before : list ascii) :
  Scan.final st before (l1 ++ l2)
  = Scan.final (Scan.final st before l1) (rev l1 ++ before) l2.
Proof.
  revert st before. induction l1 as [|c l1 IH]; intros st before; simpl; [done|].
  by rewrite IH, <- app_assoc.
Qed.

Lemma separators_app (l1 l2 : list ascii) (st : KQLSplitState)
    (before : list ascii) :
  Scan.separators st before (l1 ++ l2)
  = (Scan.separators st before l1
     + Scan.separators (Scan.final st before l1) (rev l1 ++ before) l2)%nat.
Proof.
  revert st before. induction l1 as [|c l1 IH]; intros st before; simpl; [done|].
  rewrite IH, <- app_assoc. simpl. lia.
Qed.

(** Until the first separator, the segment only grows. *)
Lemma segments_app (l1 l2 : list ascii) (st : KQLSplitState)
    (before pending : list ascii) :
  Scan.separators st before l1 = 0%nat →
  Scan.segments st before pending (l1 ++ l2)
  = Scan.segments (Scan.final st before l1) (rev l1 ++ before)
                  (rev l1 ++ pending) l2.
Proof.
  revert st before pending.
  induction l1 as [|c l1 IH]; intros st before pending H; simpl in *; [done|].
  destruct (Scan.separator st c); [done|].
  rewrite IH by done. by rewrite <- !app_assoc.
Qed.

(** A separator inside a string literal changes nothing. *)
Lemma step_separator_inside (st : KQLSplitState) (before : list ascii) :
  st ≠ OUTSIDE_STRING →
  Scan.step st before ";" = st ∧ Scan.separator st ";" = false.
Proof. by destruct st. Qed.

Lemma step_separator_outside (before : list ascii) :
  Scan.step OUTSIDE_STRING before ";" = OUTSIDE_STRING.
Proof. done. Qed.

Lemma endswith_separator (kql : string) :
  Py.endswith kql ";" = true ↔ ∃ l, Py.chars kql = l ++ [";"%char].
Proof.
  unfold Py.endswith. rewrite bool_decide_eq_true. done.
Qed.

Lemma chars_query_of (kql : string) :
  Py.chars (Kql.query_of kql)
  = if Py.endswith kql ";" then Py.chars kql else Py.chars kql ++ [";"%char].
Proof.
  unfold Kql.query_of. destruct (Py.endswith kql ";"); [done|].
  by rewrite chars_app.
Qed.

(** The number of segments, for any text. *)
Lemma split_kql_length (kql : string) :
  length (split_kql kql)
  = (top_level_separators kql
     + if Py.endswith kql ";" then 0
       else if bool_decide (state_after kql = OUTSIDE_STRING) then 1 else 0)%nat.
Proof.
  rewrite split_kql_segments, length_fmap, segments_length, chars_query_of.
  unfold top_level_separators, state_after.
  destruct (Py.endswith kql ";"); [lia|].
  rewrite separators_app. simpl. unfold Scan.separator.
  repeat case_bool_decide; simpl; try done; lia.
Qed.

(** *** Segments split again *)

Lemma look_cons (c : ascii) (b b' : list ascii) :
  Scan.look b = Scan.look b' → Scan.look (c :: b) = Scan.look (c :: b').
Proof.
  unfold Scan.look. intros [= H1 H2 H3]. simpl. f_equal.
  destruct b as [|b1 b], b' as [|b1' b']; simpl in *; try done.
  all: repeat case_bool_decide; simplify_eq; try done.
Qed.

Lemma step_look (st : KQLSplitState) (b b' : list ascii) (c : ascii) :
  Scan.look b = Scan.look b' → Scan.step st b c = Scan.step st b' c.
Proof.
  unfold Scan.look, Scan.step, Scan.triple, Scan.escaped. intros [= H1 H2 H3].
  by rewrite H1, H3.
Qed.

Lemma final_look (l : list ascii) (st : KQLSplitState) (b b' : list ascii) :
  Scan.look b = Scan.look b' → Scan.final st b l = Scan.final st b' l.
Proof.
  revert st b b'. induction l as [|c l IH]; intros st b b' H; simpl; [done|].
  rewrite (step_look st b b') by done. apply IH. by apply look_cons.
Qed.

Lemma separators_look (l : list ascii) (st : KQLSplitState) (b b' : list ascii) :
  Scan.look b = Scan.look b' → Scan.separators st b l = Scan.separators st b' l.
Proof.
  revert st b b'. induction l as [|c l IH]; intros st b b' H; simpl; [done|].
  rewrite (step_look st b b') by done. f_equal. apply IH. by apply look_cons.
Qed.

Lemma look_separator (b : list ascii) : Scan.look (";"%char :: b) = Scan.look [].
Proof. by destruct b. Qed.

Lemma segments_closed (rest : list ascii) (st : KQLSplitState)
    (before pending start : list ascii) :
  Scan.look start = Scan.look [] →
  before = pending ++ start →
  Scan.separators OUTSIDE_STRING start (rev pending) = 0%nat →
  Scan.final OUTSIDE_STRING start (rev pending) = st →
  Forall Scan.closed (Scan.segments st before pending rest).
Proof.
  revert st before pending start.
  induction rest as [|c rest IH]; intros st before pending start Hl -> Hs Hf;
    simpl; [done|].
  destruct (Scan.separator st c) eqn:Hsep.
  - apply andb_prop in Hsep as [Hst%bool_decide_eq_true Hc%bool_decide_eq_true].
    subst c. constructor.
    + split.
      * by rewrite <- (separators_look _ _ start []).
      * rewrite <- (final_look _ _ start []); [congruence|done].
    + apply (IH _ _ [] (";"%char :: pending ++ start)); try done.
      apply look_separator.
  - apply (IH _ _ (c :: pending) start); [done|done|..]; simpl.
    + rewrite separators_app, Hs, Hf, rev_involutive. simpl. by rewrite Hsep.
    + by rewrite final_app, Hf, rev_involutive.
Qed.

Lemma closed_not_endswith (s : list ascii) :
  Scan.closed s → Py.endswith (Py.text s) ";" = false.
Proof.
  intros [Hs Hf]. apply not_true_is_false. intros [l Hl]%endswith_separator.
  rewrite chars_text in Hl. subst s.
  rewrite separators_app in Hs. rewrite final_app in Hf. simpl in *.
  destruct (Scan.final OUTSIDE_STRING [] l) eqn:E; simpl in *; try done. lia.
Qed.

(** Splitting a closed text gives the text back. *)
Lemma split_kql_closed (s : list ascii) :
  Scan.closed s → split_kql (Py.text s) = [Py.text s].
Proof.
  intros Hc. rewrite split_kql_segments, chars_query_of.
  rewrite closed_not_endswith by done. destruct Hc as [Hs Hf].
  rewrite chars_text, segments_app, Hf by done. simpl.
  by rewrite !app_nil_r, rev_involutive.
Qed.

(** Every segment of [split_kql] splits into itself. *)
Lemma split_kql_segment_again (kql : string) :
  Forall (λ segment, split_kql segment = [segment]) (split_kql kql).
Proof.
  rewrite split_kql_segments. apply Forall_fmap.
  eapply Forall_impl; [|intros s; apply split_kql_closed].
  by apply (segments_closed _ _ _ _ []).
Qed.

(** *** White space *)

Lemma plain_code (c : ascii) :
  Scan.code c ≠ 59 → Scan.code c ≠ 39 → Scan.code c ≠ 34 → Scan.code c ≠ 96 → Scan.plain c.
Proof.
  intros H1 H2 H3 H4.
  repeat split; intros ->; [apply H1|apply H2|apply H3|apply H4]; reflexivity.
Qed.

Lemma space1_plain (c : ascii) : Py.space1 c = true → Scan.plain c.
Proof.
  unfold Py.space1. fold (Scan.code c). intros H.
  rewrite orb_true_iff, !andb_true_iff, !Z.leb_le in H.
  apply plain_code; lia.
Qed.

Lemma space2_plain (c1 c2 : ascii) :
  Py.space2 c1 c2 = true → Scan.plain c1 ∧ Scan.plain c2.
Proof.
  unfold Py.space2. fold (Scan.code c1) (Scan.code c2). intros H.
  rewrite andb_true_iff, orb_true_iff, !Z.eqb_eq in H.
  split; apply plain_code; lia.
Qed.

Lemma space3_plain (c1 c2 c3 : ascii) :
  Py.space3 c1 c2 c3 = true → Scan.plain c1 ∧ Scan.plain c2 ∧ Scan.plain c3.
Proof.
  unfold Py.space3. fold (Scan.code c1) (Scan.code c2) (Scan.code c3). intros H.
  rewrite !orb_true_iff, !andb_true_iff, !orb_true_iff, !andb_true_iff,
    !Z.eqb_eq, !Z.leb_le in H.
  repeat split; apply plain_code; lia.
Qed.

(** What [lstrip_chars] and [rstrip_rev_chars] drop is plain. *)
Lemma lstrip_chars_plain (l : list ascii) :
  ∃ k, l = k ++ Py.lstrip_chars l ∧ Forall Scan.plain k.
Proof.
  remember (length l) as n eqn:Hn. revert l Hn.
  induction (lt_wf n) as [n _ IH]. intros l ->.
  destruct l as [|c1 l1]; [by exists []|]. simpl.
  destruct (Py.space1 c1) eqn:H1.
  { destruct (IH (length l1) ltac:(simpl; lia) l1 eq_refl) as (k & Hk & HP).
    exists (c1 :: k). split; [by rewrite Hk at 1|].
    constructor; [by apply space1_plain|done]. }
  destruct l1 as [|c2 l2]; [by exists []|].
  destruct (Py.space2 c1 c2) eqn:H2.
  { destruct (IH (length l2) ltac:(simpl; lia) l2 eq_refl) as (k & Hk & HP).
    apply space2_plain in H2 as [??].
    exists (c1 :: c2 :: k). split; [by rewrite Hk at 1|]. by repeat apply Forall_cons_2. }
  destruct l2 as [|c3 l3]; [by exists []|].
  destruct (Py.space3 c1 c2 c3) eqn:H3; [|by exists []].
  destruct (IH (length l3) ltac:(simpl; lia) l3 eq_refl) as (k & Hk & HP).
  apply space3_plain in H3 as (? & ? & ?).
  exists (c1 :: c2 :: c3 :: k). split; [by rewrite Hk at 1|]. by repeat apply Forall_cons_2.
Qed.

Lemma rstrip_rev_chars_plain (l : list ascii) :
  ∃ k, l = k ++ Py.rstrip_rev_chars l ∧ Forall Scan.plain k.
Proof.
  remember (length l) as n eqn:Hn. revert l Hn.
  induction (lt_wf n) as [n _ IH]. intros l ->.
  destruct l as [|c1 l1]; [by exists []|]. simpl.
  destruct (Py.space1 c1) eqn:H1.
  { destruct (IH (length l1) ltac:(simpl; lia) l1 eq_refl) as (k & Hk & HP).
    exists (c1 :: k). split; [by rewrite Hk at 1|].
    constructor; [by apply space1_plain|done]. }
  destruct l1 as [|c2 l2]; [by exists []|].
  destruct (Py.space2 c2 c1) eqn:H2.
  { destruct (IH (length l2) ltac:(simpl; lia) l2 eq_refl) as (k & Hk & HP).
    apply space2_plain in H2 as [??].
    exists (c1 :: c2 :: k). split; [by rewrite Hk at 1|]. by repeat apply Forall_cons_2. }
  destruct l2 as [|c3 l3]; [by exists []|].
  destruct (Py.space3 c3 c2 c1) eqn:H3; [|by exists []].
  destruct (IH (length l3) ltac:(simpl; lia) l3 eq_refl) as (k & Hk & HP).
  apply space3_plain in H3 as (? & ? & ?).
  exists (c1 :: c2 :: c3 :: k). split; [by rewrite Hk at 1|]. by repeat apply Forall_cons_2.
Qed.

(** A text that [strip] empties has plain characters only. *)
Lemma strip_empty_plain (s : string) :
  Py.strip s = "" → Forall Scan.plain (Py.chars s).
Proof.
  unfold Py.strip. intros H. apply (text_inj _ []) in H.
  destruct (rstrip_rev_chars_plain (rev (Py.chars s))) as (k & Hk & HPk).
  destruct (lstrip_chars_plain (rev (Py.rstrip_rev_chars (rev (Py.chars s)))))
    as (k' & Hk' & HPk').
  rewrite H, app_nil_r in Hk'. 
  rewrite <- (rev_involutive (Py.chars s)), Hk, rev_app_distr, Hk'.
  apply Forall_app. split; [done|]. by apply Forall_rev.
Qed.

Lemma plain_closed (l : list ascii) (before : list ascii) :
  Forall Scan.plain l →
  Scan.separators OUTSIDE_STRING before l = 0%nat
  ∧ Scan.final OUTSIDE_STRING before l = OUTSIDE_STRING.
Proof.
  intros H. revert before. induction H as [|c l (H1 & H2 & H3 & H4) _ IH];
    intros before; [done|]. cbn [Scan.separators Scan.final].
  assert (Scan.step OUTSIDE_STRING before c = OUTSIDE_STRING) as ->.
  { unfold Scan.step, Scan.triple. by rewrite !bool_decide_eq_false_2. }
  unfold Scan.separator. rewrite (bool_decide_eq_false_2 (c = ";"%char)) by done.
  rewrite andb_false_r. apply IH.
Qed.

(** A text of white space splits into itself. *)
Lemma split_kql_whitespace (s : string) :
  Py.strip s = "" → split_kql s = [s].
Proof.
  intros H. rewrite <- (text_chars s) at 1 2. apply split_kql_closed.
  by apply plain_closed, strip_empty_plain.
Qed.

(** ** The claims on the splitter *)

(** C2, as stated, fails: a text that ends with a separator, or inside a
    literal that is never closed, has [n] top-level separators and gives
    [n] segments, not [n + 1]. *)
Lemma split_kql_count_refuted :
  split_kql "a;" = ["a"]
  ∧ top_level_separators "a;" = 1%nat
  ∧ length (split_kql "a;") ≠ (top_level_separators "a;" + 1)%nat
  ∧ split_kql "a;'b" = ["a"]
  ∧ top_level_separators "a;'b" = 1%nat.
Proof. vm_compute. repeat split; try done. Qed.

(** C2, amended.  A text with [n] top-level separators outside any string
    literal gives [n + 1] segments when it does not end with a separator and
    ends outside any string literal, and [n] segments otherwise. *)
Theorem split_kql_count (kql : string) :
  length (split_kql kql)
  = if negb (Py.endswith kql ";")
       && bool_decide (state_after kql = OUTSIDE_STRING)
    then (top_level_separators kql + 1)%nat
    else top_level_separators kql.
Proof.
  rewrite split_kql_length.
  destruct (Py.endswith kql ";"); simpl; [lia|].
  case_bool_decide; lia.
Qed.

(** C9, as stated, fails: two backticks do not open a multiline string, and
    inside one two backticks do not close it. *)
Lemma double_backtick_refuted :
  Kql.state (Kql.run "``") = OUTSIDE_STRING
  ∧ split_kql "``;``" = ["``"; "``"]
  ∧ Kql.state (Kql.run "```a``") = INSIDE_MULTILINE_STRING
  ∧ split_kql "```a``;b" = [].
Proof. vm_compute. repeat split. Qed.

(** Two backticks after a text that does not end with one: the automaton
    stays in its state, and no separator is counted. *)
Lemma scan_two_backticks (st : KQLSplitState) (before : list ascii) :
  head before ≠ Some Scan.backtick →
  Scan.final st before [Scan.backtick; Scan.backtick] = st
  ∧ Scan.separators st before [Scan.backtick; Scan.backtick] = 0%nat.
Proof.
  intros H.
  assert (Scan.triple before Scan.backtick = false
          ∧ Scan.triple (Scan.backtick :: before) Scan.backtick = false)
    as [H1 H2].
  { unfold Scan.triple. destruct before as [|b1 [|b2 before]]; try done;
      simpl in H; rewrite (bool_decide_eq_false_2 (b1 = _)) by congruence;
      by rewrite ?andb_false_r. }
  assert (Scan.step st before Scan.backtick = st) as Hs1.
  { destruct st; unfold Scan.step; by rewrite ?H1. }
  assert (Scan.step st (Scan.backtick :: before) Scan.backtick = st) as Hs2.
  { destruct st; unfold Scan.step; by rewrite ?H2. }
  cbn [Scan.final Scan.separators]. rewrite Hs1, Hs2.
  split; [done|]. unfold Scan.separator.
  by rewrite (bool_decide_eq_false_2 (Scan.backtick = _)), !andb_false_r.
Qed.

Lemma not_endswith_head (s : string) (c : ascii) :
  Py.endswith s (String c EmptyString) = false →
  head (rev (Py.chars s)) ≠ Some c.
Proof.
  unfold Py.endswith. intros H%bool_decide_eq_false Hh. apply H.
  change (Py.chars (String c EmptyString)) with [c].
  destruct (Py.chars s) as [|x l _] using rev_ind; [done|].
  rewrite rev_app_distr in Hh. simpl in Hh. injection Hh as ->.
  by exists l.
Qed.

(** C9, amended.  Outside any string, a backtick that follows two backticks
    (the third of a run) enters [INSIDE_MULTILINE_STRING]; inside a
    multiline string such a backtick returns to [OUTSIDE_STRING].  A
    backtick that does not follow two backticks changes nothing, in any
    state, and neither does any backtick inside a string in single or in
    double quotes: two backticks after a text that does not end with one
    leave the state of the loop and the top-level separators as they were.
    Inside any string a separator changes neither the state nor the
    segments. *)
Theorem kql_transitions (query : string) (i : Z) (v : Kql.vars) :
  (Kql.state v = OUTSIDE_STRING → Py.slice query (i - 2) i = "``" →
   Kql.body query i "`" v = Kql.set_state v INSIDE_MULTILINE_STRING)
  ∧ (Kql.state v = INSIDE_MULTILINE_STRING → Py.slice query (i - 2) i = "``" →
     Kql.body query i "`" v = Kql.set_state v OUTSIDE_STRING)
  ∧ (Py.slice query (i - 2) i ≠ "``" → Kql.body query i "`" v = v)
  ∧ (Kql.state v = INSIDE_SINGLE_QUOTED_STRING
     ∨ Kql.state v = INSIDE_DOUBLE_QUOTED_STRING →
     Kql.body query i "`" v = v)
  ∧ (∀ pre : string,
       Py.endswith pre "`" = false →
       state_after (pre +:+ "``") = state_after pre
       ∧ top_level_separators (pre +:+ "``") = top_level_separators pre
       ∧ Kql.state (Kql.run (pre +:+ "``")) = Kql.state (Kql.run pre))
  ∧ (Kql.state v ≠ OUTSIDE_STRING → Kql.body query i ";" v = v).
Proof.
  unfold Kql.body. split; [|split; [|split; [|split; [|split]]]].
  - intros -> ->. done.
  - intros -> ->. done.
  - intros H. rewrite (bool_decide_eq_false_2 _ H), !andb_false_r.
    by destruct (Kql.state v).
  - intros [H|H]; rewrite H; cbn; done.
  - intros pre H%not_endswith_head.
    destruct (scan_two_backticks (state_after pre) (rev (Py.chars pre)) H)
      as [Hf Hs].
    assert (state_after (pre +:+ "``") = state_after pre) as Hst.
    { unfold state_after in *. by rewrite chars_app, final_app, app_nil_r. }
    split; [done|]. split.
    + unfold top_level_separators, state_after in *.
      rewrite chars_app, separators_app, app_nil_r.
      change (Py.chars "``") with [Scan.backtick; Scan.backtick].
      rewrite Hs. lia.
    + destruct (scan_run (pre +:+ "``")) as [_ ->].
      destruct (scan_run pre) as [_ ->]. done.
  - intros H. rewrite (bool_decide_eq_false_2 _ H).
    by rewrite !(bool_decide_eq_false_2 (";"%char = _)), !andb_false_r.
Qed.

Lemma kql_transitions_witness :
  Kql.body "```;```" 2 "`" (Kql.Vars [] OUTSIDE_STRING 0)
  = Kql.Vars [] INSIDE_MULTILINE_STRING 0
  ∧ Kql.body "```;```" 6 "`" (Kql.Vars [] INSIDE_MULTILINE_STRING 0)
    = Kql.Vars [] OUTSIDE_STRING 0
  ∧ Kql.body "a``;``" 2 "`" (Kql.Vars [] OUTSIDE_STRING 0)
    = Kql.Vars [] OUTSIDE_STRING 0
  ∧ Kql.body "```a``;" 5 "`" (Kql.Vars [] INSIDE_MULTILINE_STRING 0)
    = Kql.Vars [] INSIDE_MULTILINE_STRING 0
  ∧ Kql.body "'```;" 3 "`" (Kql.Vars [] INSIDE_SINGLE_QUOTED_STRING 0)
    = Kql.Vars [] INSIDE_SINGLE_QUOTED_STRING 0
  ∧ (state_after ("a;" +:+ "``") = state_after "a;"
     ∧ top_level_separators ("a;" +:+ "``") = top_level_separators "a;"
     ∧ Kql.state (Kql.run ("a;" +:+ "``")) = Kql.state (Kql.run "a;"))
  ∧ Kql.body "```;```" 3 ";" (Kql.Vars [] INSIDE_MULTILINE_STRING 0)
    = Kql.Vars [] INSIDE_MULTILINE_STRING 0.
Proof.
  split; [|split; [|split; [|split; [|split; [|split]]]]].
  - by apply (kql_transitions "```;```" 2 (Kql.Vars [] OUTSIDE_STRING 0)).
  - by apply (kql_transitions "```;```" 6 (Kql.Vars [] INSIDE_MULTILINE_STRING 0)).
  - destruct (kql_transitions "a``;``" 2 (Kql.Vars [] OUTSIDE_STRING 0))
      as (_ & _ & H & _).
    apply H. by vm_compute.
  - destruct (kql_transitions "```a``;" 5
                (Kql.Vars [] INSIDE_MULTILINE_STRING 0)) as (_ & _ & H & _).
    apply H. by vm_compute.
  - destruct (kql_transitions "'```;" 3
                (Kql.Vars [] INSIDE_SINGLE_QUOTED_STRING 0))
      as (_ & _ & _ & H & _).
    apply H. by left.
  - destruct (kql_transitions "" 0 Kql.initial) as (_ & _ & _ & _ & H & _).
    apply H. by vm_compute.
  - by apply (kql_transitions "```;```" 3 (Kql.Vars [] INSIDE_MULTILINE_STRING 0)).
Defined.

(** A comprehension all of whose elements are built without an error. *)
Lemma logged_map_ok {A B} (f : A → logged B) (g : A → B) (w : A → LogRecord)
    (l : list A) :
  Forall (λ a, f a = (Ok (g a), [w a])) l →
  logged_map f l = (Ok (g <$> l), w <$> l).
Proof.
  induction 1 as [|a l Ha _ IH]; [done|].
  cbn [logged_map]. rewrite Ha. cbn [logged_bind]. rewrite IH. simpl.
  by rewrite app_nil_r.
Qed.

(** A text that ends outside any string literal has a segment. *)
Lemma split_kql_nonempty (kql : string) :
  state_after kql = OUTSIDE_STRING → (1 ≤ length (split_kql kql))%nat.
Proof.
  intros Hst. rewrite split_kql_length.
  destruct (Py.endswith kql ";") eqn:He.
  - apply endswith_separator in He as [l Hl].
    unfold state_after, top_level_separators in *. rewrite Hl in *.
    rewrite final_app in Hst. rewrite separators_app.
    cbn [Scan.final Scan.separators] in *.
    destruct (decide (Scan.final OUTSIDE_STRING [] l = OUTSIDE_STRING)) as [->|Hne].
    + simpl. lia.
    + destruct (step_separator_inside _ (rev l ++ []) Hne) as [Hs _].
      by rewrite Hs in Hst.
  - rewrite bool_decide_eq_true_2 by done. lia.
Qed.

Lemma kql_init_single (segment : string) :
  split_kql segment = [segment] →
  KustoKQLStatement.init segment "kustokql"
  = (Ok (KustoKQLStatement.mk (Py.strip segment) "kustokql" ∅),
     [KustoKQLStatement.table_extraction_warning]).
Proof.
  intros H. unfold KustoKQLStatement.init, KustoKQLStatement._parse_statement.
  by rewrite H.
Qed.

(** C10, as stated, fails: a text that ends inside a string literal gives no
    segment at all. *)
Lemma split_kql_no_segment :
  split_kql "'a" = []
  ∧ KustoKQLStatement.init "'a" "kustokql" = (Raise NotSingleStatement, []).
Proof. by vm_compute. Qed.

(** C10, amended.  For every text that ends outside any string literal,
    [split_kql] gives at least one segment; the empty text gives one empty
    segment; a textual statement built from an empty or white-space text is
    the empty statement; the textual split wraps every segment, the empty
    ones too, while the grammar-backed split keeps the units that are not
    empty only. *)
Theorem split_kql_at_least_one :
  (∀ kql, state_after kql = OUTSIDE_STRING → (1 ≤ length (split_kql kql))%nat)
  ∧ split_kql "" = [""]
  ∧ (∀ text, Py.strip text = "" →
       KustoKQLStatement.init text "kustokql"
       = (Ok (KustoKQLStatement.mk "" "kustokql" ∅),
          [KustoKQLStatement.table_extraction_warning]))
  ∧ (∀ query,
       KustoKQLStatement.split_query query "kustokql"
       = (Ok ((λ segment, KustoKQLStatement.mk (Py.strip segment) "kustokql" ∅)
              <$> split_kql query),
          (λ _, KustoKQLStatement.table_extraction_warning) <$> split_kql query))
  ∧ KustoKQLStatement.split_query "a;;" "kustokql"
    = (Ok [KustoKQLStatement.mk "a" "kustokql" ∅;
           KustoKQLStatement.mk "" "kustokql" ∅],
       [KustoKQLStatement.table_extraction_warning;
        KustoKQLStatement.table_extraction_warning])
  ∧ (∀ (E : Sqlglot) query engine units,
       parse query (SQLGLOT_DIALECTS !! engine) = Some units →
       ∃ l, SQLStatement.split_query query engine = Ok l
            ∧ SQLStatement._parsed <$> l = omap id units).
Proof.
  repeat split.
  - apply split_kql_nonempty.
  - intros text H. rewrite kql_init_single by by apply split_kql_whitespace.
    by rewrite H.
  - intros query. apply logged_map_ok.
    eapply Forall_impl; [apply split_kql_segment_again|].
    intros segment H. by apply kql_init_single.
  - intros E query engine units H. unfold SQLStatement.split_query. rewrite H.
    induction (omap id units) as [|u us (l & Hl & IH)]; [by exists []|].
    cbn [result_map]. rewrite Hl. cbn [result_bind SQLStatement.init].
    eexists. split; [done|]. rewrite fmap_cons. by f_equal.
Qed.

Lemma split_kql_at_least_one_witness :
  (1 ≤ length (split_kql "a; b"))%nat
  ∧ KustoKQLStatement.init "  " "kustokql"
    = (Ok (KustoKQLStatement.mk "" "kustokql" ∅),
       [KustoKQLStatement.table_extraction_warning])
  ∧ ∃ l, @SQLStatement.split_query Examples.engine "SELECT 1;;" "sqlite" = Ok l
         ∧ SQLStatement._parsed <$> l = [Examples.select_one_tree].
Proof.
  destruct split_kql_at_least_one as (H1 & _ & H3 & _ & _ & H6).
  split; [|split].
  - by apply (H1 "a; b").
  - by apply (H3 "  ").
  - by apply (H6 Examples.engine "SELECT 1;;" "sqlite"
                 [Some Examples.select_one_tree; None]).
Defined.

(** ** The claims on the construction of statements *)

(** C7.  A statement built from a text that splits into no statement or
    into more than one is rejected, with [NotSingleStatement] (for the
    textual variant the engine is checked first, and an engine other than
    [kustokql] is rejected as such); a statement that was built holds
    exactly one statement of its text. *)
Theorem single_statement (E : Sqlglot) (text engine : string) :
  (∀ units, parse text (SQLGLOT_DIALECTS !! engine) = Some units →
            length (omap id units) ≠ 1%nat →
            SQLStatement.init (inl text) engine = Raise NotSingleStatement)
  ∧ (length (split_kql text) ≠ 1%nat →
     KustoKQLStatement.init text "kustokql" = (Raise NotSingleStatement, [])
     ∧ ∃ e, KustoKQLStatement.init text engine = (Raise e, []))
  ∧ (∀ s, SQLStatement.init (inl text) engine = Ok s →
          ∃ units, parse text (SQLGLOT_DIALECTS !! engine) = Some units
                   ∧ omap id units = [SQLStatement._parsed s])
  ∧ (∀ s log, KustoKQLStatement.init text engine = (Ok s, log) →
              ∃ segment, split_kql text = [segment]
                         ∧ KustoKQLStatement._parsed s = Py.strip segment).
Proof.
  unfold SQLStatement.init, SQLStatement._parse_statement,
    KustoKQLStatement.init, KustoKQLStatement._parse_statement.
  repeat split.
  - intros units -> Hlen. by destruct (omap id units) as [|? [|??]].
  - rewrite bool_decide_eq_false_2 by (by intros []).
    by destruct (split_kql text) as [|? [|??]].
  - case_bool_decide; [by exists (InvalidEngine engine)|].
    destruct (split_kql text) as [|? [|??]]; by exists NotSingleStatement.
  - intros s. destruct (parse text _) as [units|]; [|done].
    destruct (omap id units) as [|? [|??]] eqn:Hu; simpl; try done.
    intros [= <-]. by exists units.
  - intros s log. case_bool_decide; [done|].
    destruct (split_kql text) as [|segment [|??]]; try done.
    intros [= <- _]. by exists segment.
Qed.

Lemma single_statement_witness :
  @SQLStatement.init Examples.engine (inl "SELECT 1; SELECT 1") "sqlite"
  = Raise NotSingleStatement
  ∧ @SQLStatement.init Examples.engine (inl "") "sqlite" = Raise NotSingleStatement
  ∧ KustoKQLStatement.init "a; b" "kustokql" = (Raise NotSingleStatement, [])
  ∧ KustoKQLStatement.init "'a" "kustokql" = (Raise NotSingleStatement, [])
  ∧ ∃ segment, split_kql "a" = [segment].
Proof.
  split; [|split; [|split; [|split]]].
  - by apply (single_statement Examples.engine "SELECT 1; SELECT 1" "sqlite")
      with (units := [Some Examples.select_one_tree; Some Examples.select_one_tree]).
  - by apply (single_statement Examples.engine "" "sqlite") with (units := [None]).
  - by apply (single_statement Examples.engine "a; b" "kustokql").
  - by apply (single_statement Examples.engine "'a" "kustokql").
  - destruct (single_statement Examples.engine "a" "kustokql") as (_ & _ & _ & H).
    destruct (H (KustoKQLStatement.mk "a" "kustokql" ∅)
                [KustoKQLStatement.table_extraction_warning] eq_refl)
      as (segment & Hs & _).
    by exists segment.
Defined.

(** C8.  For a statement of the textual variant the extraction of tables
    gives the empty set for any text, and logs a warning; it raises nothing,
    and the statement that is built has no table. *)
Theorem kql_extract_tables_empty (parsed engine statement : string) :
  KustoKQLStatement._extract_tables_from_statement parsed engine
  = (∅, [KustoKQLStatement.table_extraction_warning])
  ∧ match KustoKQLStatement.init statement engine with
    | (Ok s, log) =>
        KustoKQLStatement.tables s = ∅
        ∧ log = [KustoKQLStatement.table_extraction_warning]
    | (Raise _, log) => log = []
    end.
Proof.
  split; [done|]. unfold KustoKQLStatement.init.
  by destruct (KustoKQLStatement._parse_statement statement engine).
Qed.

(** ** The claims on tables *)

Lemma encode_char (c : ascii) :
  (c' ← Urllib.quote_byte c;
   if bool_decide (c' = "."%char) then Py.chars "%2E" else [c'])
  = Canonical.percent_encode_char c.
Proof. by destruct c as [[] [] [] [] [] [] [] []]. Qed.

(** [quote] and then [replace] is one pass of percent-encoding. *)
Lemma encode_part_percent (part : string) :
  TableOps.encode_part part = Canonical.percent_encode part.
Proof.
  unfold TableOps.encode_part, Py.replace_char, Urllib.quote,
    Canonical.percent_encode.
  rewrite chars_text. f_equal.
  induction (Py.chars part) as [|c l IH]; [done|].
  rewrite !bind_cons, bind_app, IH. f_equal. apply encode_char.
Qed.

Lemma parts_present (t : Table) :
  TableOps.parts t
  = Canonical.present (catalog t) ++ Canonical.present (schema t)
    ++ Canonical.present (Some (table t)).
Proof.
  unfold TableOps.parts.
  destruct t as [tb [s|] [c|]]; simpl;
    rewrite ?filter_cons, ?filter_nil; repeat case_decide;
    repeat case_bool_decide; done.
Qed.

Lemma str_canonical (t : Table) : TableOps.str t = Canonical.canonical t.
Proof.
  unfold TableOps.str, Canonical.canonical. rewrite parts_present. f_equal.
  apply list_fmap_ext. intros _ part _. apply encode_part_percent.
Qed.

Lemma percent_encode_char_no_dot (c : ascii) :
  "."%char ∉ Canonical.percent_encode_char c.
Proof.
  apply (bool_decide_unpack _).
  by destruct c as [[] [] [] [] [] [] [] []]; vm_compute.
Qed.

Lemma percent_encode_no_dot (part : string) :
  "."%char ∉ Py.chars (Canonical.percent_encode part).
Proof.
  unfold Canonical.percent_encode. rewrite chars_text.
  intros (c & H & _)%list_elem_of_bind. by apply percent_encode_char_no_dot in H.
Qed.

(** *** Reading a canonical string back *)

Lemma unquote_encode_char (c : ascii) (rest : list ascii) :
  Canonical.unquote (Canonical.percent_encode_char c ++ rest)
  = c :: Canonical.unquote rest.
Proof. by destruct c as [[] [] [] [] [] [] [] []]. Qed.

Lemma unquote_encode (part : string) :
  Py.text (Canonical.unquote (Py.chars (Canonical.percent_encode part))) = part.
Proof.
  unfold Canonical.percent_encode. rewrite chars_text.
  rewrite <- (text_chars part) at 2. f_equal.
  induction (Py.chars part) as [|c l IH]; [done|].
  by rewrite bind_cons, unquote_encode_char, IH.
Qed.

Lemma percent_encode_nonempty (part : string) :
  part ≠ "" → Canonical.percent_encode part ≠ "".
Proof.
  intros H He. apply H. by rewrite <- (unquote_encode part), He.
Qed.

Lemma split_dot_app (part rest : list ascii) :
  "."%char ∉ part →
  Canonical.split_dot (part ++ "."%char :: rest)
  = part :: Canonical.split_dot rest.
Proof.
  induction part as [|c part IH]; intros H; [done|].
  apply not_elem_of_cons in H as [Hc Hpart]. simpl.
  rewrite bool_decide_eq_false_2 by done. by rewrite IH.
Qed.

Lemma split_dot_single (part : list ascii) :
  "."%char ∉ part → Canonical.split_dot part = [part].
Proof.
  induction part as [|c part IH]; intros H; [done|].
  apply not_elem_of_cons in H as [Hc Hpart]. simpl.
  rewrite bool_decide_eq_false_2 by done. by rewrite IH.
Qed.

Lemma join_cons (sep p q : string) (ps : list string) :
  Py.join sep (p :: q :: ps) = p +:+ sep +:+ Py.join sep (q :: ps).
Proof. done. Qed.

Lemma split_dot_join (part : string) (parts : list string) :
  Forall (λ p, "."%char ∉ Py.chars p) (part :: parts) →
  Canonical.split_dot (Py.chars (Py.join "." (part :: parts)))
  = Py.chars <$> part :: parts.
Proof.
  revert part. induction parts as [|p parts IH]; intros part H.
  - apply Forall_cons in H as [H _]. by apply split_dot_single.
  - apply Forall_cons in H as [H1 H2]. rewrite join_cons.
    rewrite !chars_app. change (Py.chars ".") with ["."%char]. cbn [app].
    rewrite split_dot_app by done. by rewrite IH.
Qed.

Lemma join_nonempty (part : string) (parts : list string) :
  part ≠ "" → Py.join "." (part :: parts) ≠ "".
Proof. destruct part; [done|]. by destruct parts. Qed.

(** The parts of a table are read back from its canonical string. *)
Lemma read_str (t : Table) : Canonical.read (TableOps.str t) = TableOps.parts t.
Proof.
  unfold Canonical.read, TableOps.str.
  assert (Forall (λ p, p ≠ "") (TableOps.parts t)) as Hne.
  { unfold TableOps.parts. apply Forall_forall. by intros p [? _]%list_elem_of_filter. }
  destruct (TableOps.parts t) as [|part parts]; [done|].
  rewrite fmap_cons, bool_decide_eq_false_2; last first.
  { apply join_nonempty. rewrite encode_part_percent.
    apply percent_encode_nonempty. by apply Forall_cons in Hne as [? _]. }
  rewrite split_dot_join; last first.
  { rewrite <- fmap_cons. apply Forall_fmap, Forall_forall. intros p _. cbn.
    rewrite encode_part_percent. apply percent_encode_no_dot. }
  rewrite <- fmap_cons.
  rewrite <- !list_fmap_compose. rewrite <- (list_fmap_id (part :: parts)) at 2.
  apply list_fmap_ext. intros _ p _. cbn.
  rewrite encode_part_percent. apply unquote_encode.
Qed.

(** Two tables are equal when they have the same parts. *)
Lemma eq_parts (self other : Table) :
  TableOps.eq self other = true ↔ TableOps.parts self = TableOps.parts other.
Proof.
  unfold TableOps.eq. rewrite bool_decide_eq_true. split.
  - intros H. by rewrite <- !read_str, H.
  - intros H. unfold TableOps.str. by rewrite H.
Qed.

(** C3, as stated, fails for hashing: two tables with one canonical string,
    equal for [__eq__], whose hashes differ as soon as the hash of Python
    tells their tuples of fields apart. *)
Lemma table_hash_refuted :
  let a := mkTable "t" (Some "s") None in
  let b := mkTable "t" None (Some "s") in
  TableOps.str a = "s.t" ∧ TableOps.str b = "s.t" ∧ TableOps.eq a b = true
  ∧ (∀ h, h ("t", Some "s", None) ≠ h ("t", None, Some "s") →
          TableOps.hash h a ≠ TableOps.hash h b)
  ∧ ¬ (∀ (h : string * option string * option string → Z) (x y : Table),
         TableOps.str x = TableOps.str y → TableOps.hash h x = TableOps.hash h y).
Proof.
  repeat split; try done.
  intros H.
  specialize (H (λ '(_, s, _), if s is Some _ then 1 else 0)
                (mkTable "t" (Some "s") None) (mkTable "t" None (Some "s"))
                eq_refl).
  done.
Qed.

(** C3, amended.  Equality of tables is equality of their canonical strings:
    catalog, schema and table in that order, the absent and the empty parts
    left out, each part percent-encoded with [.] encoded too (so that no
    part holds a [.]), joined with [.]; the parts are read back from the
    string, so two tables are equal exactly when they have the same parts.
    The hash is the one of the tuple of the fields: tables with the same
    fields have the same hash, and the hash of tables that are equal may
    differ. *)
Theorem table_canonical_string (self other : Table)
    (h : string * option string * option string → Z) :
  (TableOps.eq self other = true ↔ TableOps.str self = TableOps.str other)
  ∧ TableOps.str self = Canonical.canonical self
  ∧ (∀ part, "."%char ∉ Py.chars (TableOps.encode_part part))
  ∧ Canonical.read (TableOps.str self) = TableOps.parts self
  ∧ (TableOps.eq self other = true ↔ TableOps.parts self = TableOps.parts other)
  ∧ TableOps.str (mkTable "t" None None) = "t"
  ∧ TableOps.str (mkTable "t" (Some "s") None) = "s.t"
  ∧ TableOps.hash h self = h (table self, schema self, catalog self).
Proof.
  repeat split.
  - by intros ?%bool_decide_eq_true.
  - intros H. by apply bool_decide_eq_true.
  - apply str_canonical.
  - intros part. rewrite encode_part_percent. apply percent_encode_no_dot.
  - apply read_str.
  - by intros ?%eq_parts.
  - by intros ?%eq_parts.
Qed.

(** ** The nodes [walk] visits *)

Lemma node_of_inv (node e : Expression) :
  node_of node e ↔
  node = e ∨ ∃ child, child ∈ Exp.iter_expressions e ∧ node_of node child.
Proof.
  split.
  - intros H. destruct H as [e|node child e Hc Hn]; [by left|right; eauto].
  - intros [->|(child & Hc & Hn)]; [constructor|by econstructor].
Qed.

Lemma size_children (e : Expression) :
  Exp.size e = S (sum_list (Exp.size <$> Exp.iter_expressions e)).
Proof.
  destruct e as [c t a]. simpl. f_equal. unfold Exp.iter_expressions. simpl.
  by rewrite <- list_fmap_compose.
Qed.

(** A queue with fuel for all its nodes is walked to the end. *)
Lemma bfs_nodes (fuel : nat) (queue : list Expression) (node : Expression) :
  (sum_list (Exp.size <$> queue) ≤ fuel)%nat →
  node ∈ Exp.bfs fuel queue ↔ ∃ e, e ∈ queue ∧ node_of node e.
Proof.
  revert queue. induction fuel as [|fuel IH]; intros queue Hfuel.
  - destruct queue as [|e queue].
    + simpl. split; [by intros ?%elem_of_nil|by intros (? & ?%elem_of_nil & _)].
    + rewrite fmap_cons, size_children in Hfuel. simpl in Hfuel. lia.
  - destruct queue as [|e queue].
    + simpl. split; [by intros ?%elem_of_nil|by intros (? & ?%elem_of_nil & _)].
    + cbn [Exp.bfs]. rewrite elem_of_cons, IH.
      * split.
        -- intros [->|(e' & [He'|He']%elem_of_app & Hn)].
           ++ exists e. split; [by left|constructor].
           ++ exists e'. split; [by right|done].
           ++ exists e. split; [by left|by econstructor].
        -- intros (e' & [->|He']%elem_of_cons & Hn).
           ++ apply node_of_inv in Hn as [->|(child & Hc & Hn)]; [by left|].
              right. exists child. split; [|done]. apply elem_of_app. by right.
           ++ right. exists e'. split; [|done]. apply elem_of_app. by left.
      * rewrite fmap_cons in Hfuel. simpl in Hfuel.
        rewrite size_children in Hfuel.
        rewrite fmap_app, sum_list_with_app. lia.
Qed.

(** [walk] visits the nodes of the tree, all of them. *)
Lemma walk_nodes (e node : Expression) : node ∈ Exp.walk e ↔ node_of node e.
Proof.
  unfold Exp.walk. rewrite bfs_nodes by (simpl; lia).
  split; [by intros (? & ->%list_elem_of_singleton & ?)|].
  intros H. exists e. split; [by apply list_elem_of_singleton|done].
Qed.

Lemma walk_self (e : Expression) : e ∈ Exp.walk e.
Proof. apply walk_nodes. constructor. Qed.

Lemma mutating_node_spec (node : Expression) :
  SQLStatement.mutating_node node = true ↔
  mutating_class (Exp.cls node)
  ∨ (Exp.cls node = exp.Command ∧ Exp.name node = "ALTER").
Proof.
  unfold SQLStatement.mutating_node, mutating_class, Exp.isinstance.
  rewrite orb_true_iff, andb_true_iff, !bool_decide_eq_true.
  split.
  - intros [H|H]; [left|by right].
    destruct (Exp.cls node); try done; set_solver.
  - intros [H|H]; [left|by right].
    repeat (apply elem_of_cons in H as [->|H]; [done|]). by apply elem_of_nil in H.
Qed.

Lemma exists_mutating_node (e : Expression) :
  existsb SQLStatement.mutating_node (Exp.walk e) = true ↔
  ∃ node, node_of node e
          ∧ (mutating_class (Exp.cls node)
             ∨ (Exp.cls node = exp.Command ∧ Exp.name node = "ALTER")).
Proof.
  rewrite existsb_exists. split.
  - intros (node & Hin & Hm). exists node.
    split; [by apply walk_nodes, list_elem_of_In|by apply mutating_node_spec].
  - intros (node & Hn & Hm). exists node.
    split; [by apply list_elem_of_In, walk_nodes|by apply mutating_node_spec].
Qed.

(** ** The claims on [is_mutating] *)

Lemma is_mutating_node (E : Sqlglot) (fuel : nat) (s : SQLStatement.t) :
  has_mutating_node (SQLStatement._parsed s) →
  SQLStatement.is_mutating fuel s = Some (Ok true).
Proof.
  intros H%exists_mutating_node. destruct fuel; simpl; by rewrite H.
Qed.

Lemma no_mutating_node (e : Expression) :
  ¬ has_mutating_node e →
  existsb SQLStatement.mutating_node (Exp.walk e) = false.
Proof.
  intros H. apply not_true_is_false. by intros ?%exists_mutating_node.
Qed.

(** The call for the statement after [EXPLAIN ANALYZE]. *)
Lemma is_mutating_explain_analyze (E : Sqlglot) (fuel : nat)
    (s : SQLStatement.t) (analyzed_sql : string) :
  explain_analyze s analyzed_sql →
  ¬ has_mutating_node (SQLStatement._parsed s) →
  SQLStatement.is_mutating (S fuel) s
  = match SQLStatement.init (inl analyzed_sql) (SQLStatement.engine s) with
    | Ok analyzed => SQLStatement.is_mutating fuel analyzed
    | Raise e => Some (Raise e)
    end.
Proof.
  intros (Hd & Hc & Hn & expression & He & Hs & ->) Hno.
  cbn [SQLStatement.is_mutating]. rewrite no_mutating_node by done.
  unfold Exp.isinstance. rewrite !bool_decide_eq_true_2 by done.
  cbn [andb]. by rewrite He, Hs.
Qed.

(** Without the Postgres dialect, or on another tree than the command
    [EXPLAIN], the nodes decide, whatever the fuel and the engine. *)
Lemma is_mutating_plain (E : Sqlglot) (fuel : nat) (s : SQLStatement.t) :
  ¬ (SQLStatement._dialect s = Some POSTGRES
     ∧ Exp.cls (SQLStatement._parsed s) = exp.Command
     ∧ Exp.name (SQLStatement._parsed s) = "EXPLAIN") →
  SQLStatement.is_mutating fuel s
  = Some (Ok (existsb SQLStatement.mutating_node
                      (Exp.walk (SQLStatement._parsed s)))).
Proof.
  intros H. destruct fuel; cbn [SQLStatement.is_mutating];
    (destruct (existsb _ _); [done|]);
    unfold Exp.isinstance; repeat case_bool_decide; try done; naive_solver.
Qed.

(** A statement found mutating holds a node, or is [EXPLAIN ANALYZE] of a
    statement found mutating. *)
Lemma is_mutating_true (E : Sqlglot) (fuel : nat) (s : SQLStatement.t) :
  SQLStatement.is_mutating fuel s = Some (Ok true) →
  has_mutating_node (SQLStatement._parsed s)
  ∨ ∃ analyzed_sql fuel' analyzed,
      explain_analyze s analyzed_sql ∧ fuel = S fuel'
      ∧ SQLStatement.init (inl analyzed_sql) (SQLStatement.engine s) = Ok analyzed
      ∧ SQLStatement.is_mutating fuel' analyzed = Some (Ok true).
Proof.
  intros H.
  destruct (existsb SQLStatement.mutating_node (Exp.walk (SQLStatement._parsed s)))
    eqn:Hex; [left; by apply exists_mutating_node|right].
  assert (∀ n, SQLStatement.is_mutating n s
               = if bool_decide (SQLStatement._dialect s = Some POSTGRES)
                    && Exp.isinstance (SQLStatement._parsed s) exp.Command
                    && bool_decide (Exp.name (SQLStatement._parsed s) = "EXPLAIN")
                 then
                   match Exp.get (SQLStatement._parsed s) "expression" with
                   | Some (inr expression) =>
                       if Py.startswith (Py.upper (Exp.name expression)) "ANALYZE "
                       then
                         match n with
                         | O => None
                         | S n' =>
                             match SQLStatement.init
                                     (inl (Py.slice_from (Exp.name expression)
                                                         (Py.len "ANALYZE ")))
                                     (SQLStatement.engine s) with
                             | Ok analyzed => SQLStatement.is_mutating n' analyzed
                             | Raise e => Some (Raise e)
                             end
                         end
                       else Some (Ok false)
                   | _ => Some (Raise AttributeError)
                   end
                 else Some (Ok false)) as Hunfold.
  { intros n. destruct n; cbn [SQLStatement.is_mutating]; by rewrite Hex. }
  rewrite Hunfold in H. clear Hunfold.
  destruct (bool_decide (SQLStatement._dialect s = Some POSTGRES)) eqn:Hd; [|done].
  destruct (Exp.isinstance (SQLStatement._parsed s) exp.Command) eqn:Hc; [|done].
  destruct (bool_decide (Exp.name (SQLStatement._parsed s) = "EXPLAIN")) eqn:Hn;
    [|done].
  cbn [andb] in H.
  destruct (Exp.get (SQLStatement._parsed s) "expression") as [[|expression]|] eqn:He;
    try done.
  destruct (Py.startswith _ _) eqn:Hs; [|done].
  destruct fuel as [|fuel']; [done|].
  destruct (SQLStatement.init _ _) as [analyzed|] eqn:Hi; [|done].
  exists (Py.slice_from (Exp.name expression) 8), fuel', analyzed.
  repeat split; try done.
  - by apply bool_decide_eq_true in Hd.
  - by apply bool_decide_eq_true in Hc.
  - by apply bool_decide_eq_true in Hn.
  - by exists expression.
Qed.

Lemma root_mutating (e : Expression) :
  mutating_class (Exp.cls e) → has_mutating_node e.
Proof. intros H. exists e. split; [constructor|by left]. Qed.

(** C4.  [is_mutating] answers true exactly when a node of the tree is an
    insert, update, delete, merge, create, drop or truncate-table node or a
    command named [ALTER], or when the statement is the Postgres
    [EXPLAIN ANALYZE] of a statement for which it answers true; apart from
    the Postgres command [EXPLAIN] it always answers, and by the nodes
    alone.  The trees of [INSERT INTO t VALUES (1)], [UPDATE t SET x=1],
    [DELETE FROM t], [CREATE TABLE t (x INT)] and [DROP TABLE t] are found
    mutating, the tree of [SELECT 1] is not. *)
Theorem is_mutating_classifies (E : Sqlglot) (fuel : nat) (s : SQLStatement.t) :
  (has_mutating_node (SQLStatement._parsed s) →
   SQLStatement.is_mutating fuel s = Some (Ok true))
  ∧ (SQLStatement.is_mutating fuel s = Some (Ok true) →
     has_mutating_node (SQLStatement._parsed s)
     ∨ ∃ analyzed_sql fuel' analyzed,
         explain_analyze s analyzed_sql ∧ fuel = S fuel'
         ∧ SQLStatement.init (inl analyzed_sql) (SQLStatement.engine s)
           = Ok analyzed
         ∧ SQLStatement.is_mutating fuel' analyzed = Some (Ok true))
  ∧ (¬ (SQLStatement._dialect s = Some POSTGRES
        ∧ Exp.cls (SQLStatement._parsed s) = exp.Command
        ∧ Exp.name (SQLStatement._parsed s) = "EXPLAIN") →
     ∃ b, SQLStatement.is_mutating fuel s = Some (Ok b)
          ∧ (b = true ↔ has_mutating_node (SQLStatement._parsed s)))
  ∧ (SQLStatement._parsed s
       ∈ [Examples.insert_tree; Examples.update_tree; Examples.delete_tree;
          Examples.create_tree; Examples.drop_tree] →
     SQLStatement.is_mutating fuel s = Some (Ok true))
  ∧ (SQLStatement._parsed s = Examples.select_one_tree →
     SQLStatement.is_mutating fuel s = Some (Ok false)).
Proof.
  split; [apply is_mutating_node|]. split; [apply is_mutating_true|].
  split; [|split].
  - intros H. eexists. split; [by apply is_mutating_plain|].
    apply exists_mutating_node.
  - intros H. apply is_mutating_node, root_mutating.
    repeat (apply elem_of_cons in H as [->|H]; [set_solver|]).
    by apply elem_of_nil in H.
  - intros H. rewrite is_mutating_plain by (by rewrite H; intros (_ & ? & _)).
    by rewrite H.
Qed.

Lemma is_mutating_classifies_witness :
  let statement tree := SQLStatement.mk tree "sqlite" (Some SQLITE) ∅ in
  @SQLStatement.is_mutating Examples.engine 0 (statement Examples.insert_tree)
  = Some (Ok true)
  ∧ @SQLStatement.is_mutating Examples.engine 0 (statement Examples.update_tree)
    = Some (Ok true)
  ∧ @SQLStatement.is_mutating Examples.engine 0 (statement Examples.delete_tree)
    = Some (Ok true)
  ∧ @SQLStatement.is_mutating Examples.engine 0 (statement Examples.create_tree)
    = Some (Ok true)
  ∧ @SQLStatement.is_mutating Examples.engine 0 (statement Examples.drop_tree)
    = Some (Ok true)
  ∧ @SQLStatement.is_mutating Examples.engine 0
      (statement Examples.select_one_tree)
    = Some (Ok false).
Proof.
  intros statement. split; [|split; [|split; [|split; [|split]]]].
  - apply (is_mutating_classifies Examples.engine 0 (statement Examples.insert_tree)).
    set_solver.
  - apply (is_mutating_classifies Examples.engine 0 (statement Examples.update_tree)).
    set_solver.
  - apply (is_mutating_classifies Examples.engine 0 (statement Examples.delete_tree)).
    set_solver.
  - apply (is_mutating_classifies Examples.engine 0 (statement Examples.create_tree)).
    set_solver.
  - apply (is_mutating_classifies Examples.engine 0 (statement Examples.drop_tree)).
    set_solver.
  - by apply (is_mutating_classifies Examples.engine 0
                (statement Examples.select_one_tree)).
Defined.

(** Under the guard of the code (the Postgres dialect, the command
    [EXPLAIN], a text that starts with [ANALYZE] and one space, and a tree
    with no node [is_mutating] looks for), the statement is classified as
    the statement built from the text after [ANALYZE ] is, so
    [EXPLAIN ANALYZE DELETE FROM t] is mutating; for any other dialect the
    nodes of the tree decide, with no fuel for a call and whatever the
    engine answers, and [EXPLAIN ANALYZE DELETE FROM t] is not mutating. *)
Lemma explain_analyze_recursion (E : Sqlglot) (fuel : nat)
    (s : SQLStatement.t) :
  (∀ analyzed_sql,
     explain_analyze s analyzed_sql →
     ¬ has_mutating_node (SQLStatement._parsed s) →
     SQLStatement.is_mutating (S fuel) s
     = match SQLStatement.init (inl analyzed_sql) (SQLStatement.engine s) with
       | Ok analyzed => SQLStatement.is_mutating fuel analyzed
       | Raise e => Some (Raise e)
       end)
  ∧ (∀ tree,
       SQLStatement._dialect s = Some POSTGRES →
       SQLStatement._parsed s = Examples.explain_analyze_delete_tree →
       parse "DELETE FROM t" (SQLGLOT_DIALECTS !! SQLStatement.engine s)
       = Some [Some tree] →
       Exp.cls tree = exp.Delete →
       SQLStatement.is_mutating (S fuel) s = Some (Ok true))
  ∧ (SQLStatement._dialect s ≠ Some POSTGRES →
     SQLStatement.is_mutating 0 s
     = Some (Ok (existsb SQLStatement.mutating_node
                         (Exp.walk (SQLStatement._parsed s))))
     ∧ SQLStatement.is_mutating fuel s = SQLStatement.is_mutating 0 s)
  ∧ (SQLStatement._dialect s ≠ Some POSTGRES →
     SQLStatement._parsed s = Examples.explain_analyze_delete_tree →
     SQLStatement.is_mutating fuel s = Some (Ok false)).
Proof.
  split; [apply is_mutating_explain_analyze|]. split; [|split].
  - intros tree Hd Hp Hparse Hcls.
    rewrite (is_mutating_explain_analyze E fuel s "DELETE FROM t").
    + unfold SQLStatement.init, SQLStatement._parse_statement.
      rewrite Hparse. simpl omap. cbn [result_bind].
      apply is_mutating_node, root_mutating. simpl. rewrite Hcls. set_solver.
    + repeat split; try done; try (by rewrite Hp).
      exists (Examples.text_literal "ANALYZE DELETE FROM t"). by rewrite Hp.
    + rewrite Hp. intros H%exists_mutating_node. by vm_compute in H.
  - intros H. rewrite !is_mutating_plain by (by intros (? & _)). done.
  - intros H Hp. rewrite is_mutating_plain by (by intros (? & _)).
    by rewrite Hp.
Qed.

Lemma explain_analyze_recursion_witness :
  @SQLStatement.is_mutating Examples.engine 1
    (SQLStatement.mk Examples.explain_analyze_delete_tree "postgresql"
                     (Some POSTGRES) ∅)
  = Some (Ok true)
  ∧ @SQLStatement.is_mutating Examples.engine 1
      (SQLStatement.mk Examples.explain_analyze_delete_tree "mysql"
                       (Some MYSQL) ∅)
    = Some (Ok false).
Proof.
  split.
  - by apply (explain_analyze_recursion Examples.engine 0
                (SQLStatement.mk Examples.explain_analyze_delete_tree
                                 "postgresql" (Some POSTGRES) ∅))
      with (tree := Examples.delete_tree).
  - by apply (explain_analyze_recursion Examples.engine 1
                (SQLStatement.mk Examples.explain_analyze_delete_tree
                                 "mysql" (Some MYSQL) ∅)).
Defined.

(** C5.  For the Postgres dialect, [EXPLAIN ANALYZE] followed by a line
    feed and [DELETE FROM t] is answered not mutating, for every engine and
    with any fuel: the text of the command does not start with [ANALYZE]
    and one space, so that no statement is built from what follows and the
    guard of the code is not met, although [DELETE FROM t] itself is
    answered mutating. *)
Theorem explain_analyze_line_feed (E : Sqlglot) (fuel : nat)
    (tables : gset Table) :
  SQLStatement.is_mutating fuel
    (SQLStatement.mk Examples.explain_analyze_line_feed_tree "postgresql"
                     (Some POSTGRES) tables)
  = Some (Ok false)
  ∧ (∀ analyzed_sql,
       ¬ explain_analyze
           (SQLStatement.mk Examples.explain_analyze_line_feed_tree
                            "postgresql" (Some POSTGRES) tables)
           analyzed_sql)
  ∧ SQLStatement.is_mutating fuel
      (SQLStatement.mk Examples.delete_tree "postgresql" (Some POSTGRES) tables)
    = Some (Ok true).
Proof.
  split; [|split].
  - by destruct fuel; vm_compute.
  - intros analyzed_sql (_ & _ & _ & expression & He & Hs & _).
    injection He as <-. by vm_compute in Hs.
  - apply is_mutating_node, root_mutating. set_solver.
Qed.

(** ** The claims on the extraction of tables *)

(** [is_cte]: the parent scope binds the name of the source to a scope of
    type [CTE]. *)
Lemma is_cte_spec (scopes : list Scope) (source : Expression) (scope : Scope) :
  is_cte scopes source scope = true ↔
  ∃ p parent_scope ref cte,
    parent scope = Some p ∧ scopes !! p = Some parent_scope
    ∧ (Exp.name source, SourceScope ref) ∈ sources parent_scope
    ∧ scopes !! ref = Some cte ∧ scope_type cte = CTE.
Proof.
  unfold is_cte. rewrite bool_decide_eq_true, elem_of_list_to_set, list_elem_of_bind.
  split.
  - intros ([name [t|ref]] & Hin & Hsrc); [by apply elem_of_nil in Hin|].
    destruct (scopes !! ref) as [cte|] eqn:Hcte; [|by apply elem_of_nil in Hin].
    case_bool_decide; [|by apply elem_of_nil in Hin].
    apply list_elem_of_singleton in Hin as ->.
    destruct (parent scope) as [p|]; [|by apply elem_of_nil in Hsrc].
    destruct (scopes !! p) as [parent_scope|] eqn:Hp;
      [|by apply elem_of_nil in Hsrc].
    by exists p, parent_scope, ref, cte.
  - intros (p & parent_scope & ref & cte & -> & -> & Hin & Hcte & Hty).
    exists (Exp.name source, SourceScope ref). split; [|done].
    rewrite Hcte, bool_decide_eq_true_2 by done. by apply list_elem_of_singleton.
Qed.

(** The sources the general case keeps. *)
Lemma scope_sources_spec (scopes : list Scope) (t : Expression) :
  t ∈ scope_sources scopes ↔
  ∃ scope key,
    scope ∈ scopes ∧ (key, SourceTable t) ∈ sources scope
    ∧ Exp.cls t = exp.Table ∧ is_cte scopes t scope = false.
Proof.
  unfold scope_sources. rewrite list_elem_of_bind. split.
  - intros (scope & Hin & Hscope). apply list_elem_of_bind in Hin
      as ([key [t'|ref]] & Hin & Hsrc); [|by apply elem_of_nil in Hin].
    destruct (Exp.isinstance t' exp.Table) eqn:Hc;
      [|by apply elem_of_nil in Hin].
    destruct (is_cte scopes t' scope) eqn:Hcte; [by apply elem_of_nil in Hin|].
    apply list_elem_of_singleton in Hin as ->.
    exists scope, key. by apply bool_decide_eq_true in Hc.
  - intros (scope & key & Hscope & Hsrc & Hc & Hcte). exists scope.
    split; [|done]. apply list_elem_of_bind. exists (key, SourceTable t).
    split; [|done]. unfold Exp.isinstance.
    rewrite Hcte, bool_decide_eq_true_2 by done. by apply list_elem_of_singleton.
Qed.

(** C1.  A table found as a source of a scope is left out exactly when the
    parent scope binds its name to a scope of type [CTE], and it is kept
    exactly when it is a source of some scope for which that is not the
    case.  For [WITH foo AS (SELECT * FROM target_table) SELECT * FROM foo]
    the tables are [target_table] alone, and [foo] is not one of them; a
    table named [foo] below the scope that binds the CTE [foo] is left out
    too. *)
Theorem cte_alias_excluded (E : Sqlglot) (scopes : list Scope)
    (source : Expression) (scope : Scope) (dialect : option Dialects) :
  (is_cte scopes source scope = true ↔
   ∃ p parent_scope ref cte,
     parent scope = Some p ∧ scopes !! p = Some parent_scope
     ∧ (Exp.name source, SourceScope ref) ∈ sources parent_scope
     ∧ scopes !! ref = Some cte ∧ scope_type cte = CTE)
  ∧ (source ∈ scope_sources scopes ↔
     ∃ scope' key,
       scope' ∈ scopes ∧ (key, SourceTable source) ∈ sources scope'
       ∧ Exp.cls source = exp.Table ∧ is_cte scopes source scope' = false)
  ∧ (traverse_scope Examples.cte_tree = Examples.cte_scopes →
     extract_tables_from_statement Examples.cte_tree dialect
     = {[ mkTable "target_table" None None ]}
     ∧ mkTable "foo" None None
       ∉ extract_tables_from_statement Examples.cte_tree dialect)
  ∧ tables_of_sources (scope_sources Examples.shadow_scopes)
    = {[ mkTable "target_table" None None ]}.
Proof.
  split; [apply is_cte_spec|]. split; [apply scope_sources_spec|].
  split; [|reflexivity].
  intros H. unfold extract_tables_from_statement.
  change (Exp.isinstance Examples.cte_tree exp.Describe) with false.
  change (Exp.isinstance Examples.cte_tree exp.Command) with false.
  cbn match. rewrite H.
  change (tables_of_sources (scope_sources Examples.cte_scopes))
    with ({[ mkTable "target_table" None None ]} : gset Table).
  split; [done|]. by intros [=]%elem_of_singleton.
Qed.

Lemma cte_alias_excluded_witness :
  @extract_tables_from_statement Examples.engine Examples.cte_tree (Some SQLITE)
  = {[ mkTable "target_table" None None ]}
  ∧ is_cte Examples.shadow_scopes (Examples.table_ref "foo")
           (mkScope (Some 2%nat) SUBQUERY
                    [("foo", SourceTable (Examples.table_ref "foo"))])
    = true.
Proof.
  split.
  - by apply (cte_alias_excluded Examples.engine [] Examples.star
                (mkScope None ROOT []) (Some SQLITE)).
  - apply (cte_alias_excluded Examples.engine Examples.shadow_scopes
             (Examples.table_ref "foo")
             (mkScope (Some 2%nat) SUBQUERY
                      [("foo", SourceTable (Examples.table_ref "foo"))])
             None).
    exists 2%nat, (mkScope None ROOT [("foo", SourceScope 0); ("x", SourceScope 1)]),
      0%nat,
      (mkScope (Some 2%nat) CTE
         [("target_table", SourceTable (Examples.table_ref "target_table"))]).
    repeat split. by left.
Defined.

(** ** The claims on the settings *)

Lemma lookup_update (settings new : gmap string setting) (key : string) :
  SQLScript.update settings new !! key
  = match new !! key with
    | Some v => Some v
    | None => settings !! key
    end.
Proof.
  unfold SQLScript.update. rewrite lookup_union.
  by destruct (new !! key), (settings !! key).
Qed.

Lemma lookup_foldl_update (news : list (gmap string setting))
    (settings : gmap string setting) (key : string) :
  foldl SQLScript.update settings news !! key
  = match last_assignment news key with
    | Some v => Some v
    | None => settings !! key
    end.
Proof.
  revert settings. induction news as [|new news IH]; intros settings; [done|].
  cbn [foldl last_assignment]. rewrite IH, lookup_update.
  by destruct (last_assignment news key).
Qed.

(** The loop of [SQLScript.get_settings], when no statement raises. *)
Lemma script_get_settings_fold (E : Sqlglot) (R : Regex)
    (statements : list Statement) (news : list (gmap string setting)) :
  Forall2 (λ statement new, SQLScript.statement_get_settings statement = Ok new)
          statements news →
  SQLScript.get_settings (SQLScript.mk statements)
  = Ok (foldl SQLScript.update ∅ news).
Proof.
  unfold SQLScript.get_settings. cbn [SQLScript.statements].
  generalize (∅ : gmap string setting) as settings.
  intros settings H. revert settings.
  induction H as [|statement new statements news Hs _ IH]; intros settings;
    [done|].
  cbn [foldl result_bind]. rewrite Hs. cbn [result_bind]. apply IH.
Qed.

(** The comprehension of [SQLStatement.get_settings], when every pair has
    its two sides. *)
Lemma statement_get_settings_fold (E : Sqlglot) (s : SQLStatement.t)
    (pairs : list (Expression * Expression)) :
  Forall2 (λ eq pair, Exp.get eq "this" = Some (inr pair.1)
                      ∧ Exp.get eq "expression" = Some (inr pair.2))
          (SQLStatement.setting_pairs s) pairs →
  SQLStatement.get_settings s
  = Ok (foldl (λ settings pair,
                 <[sql pair.1 := SettingStr (sql pair.2)]> settings)
              ∅ pairs).
Proof.
  unfold SQLStatement.get_settings.
  generalize (∅ : gmap string setting) as settings.
  generalize (SQLStatement.setting_pairs s) as eqs.
  intros eqs settings H. revert settings.
  induction H as [|eq pair eqs pairs [H1 H2] _ IH]; intros settings; [done|].
  cbn [foldl result_bind]. rewrite H1, H2. apply IH.
Qed.

(** C6.  The settings of a script are those of its statements folded in
    order, the value of a key being the one of the last statement that sets
    it; the settings of a grammar-backed statement map the text the
    generator gives for the left-hand side to the text it gives for the
    right-hand side, which for a text literal has its quotes: [SET foo =
    'bar'] gives [foo] with ['bar'], and the script [SET foo='bar'; SET
    foo='baz'] gives [foo] with ['baz']. *)
Theorem script_settings (E : Sqlglot) (R : Regex) :
  (∀ statements news,
     Forall2 (λ statement new,
                SQLScript.statement_get_settings statement = Ok new)
             statements news →
     ∃ settings,
       SQLScript.get_settings (SQLScript.mk statements) = Ok settings
       ∧ ∀ key, settings !! key = last_assignment news key)
  ∧ (∀ s pairs,
       Forall2 (λ eq pair, Exp.get eq "this" = Some (inr pair.1)
                           ∧ Exp.get eq "expression" = Some (inr pair.2))
               (SQLStatement.setting_pairs s) pairs →
       SQLStatement.get_settings s
       = Ok (foldl (λ settings pair,
                      <[sql pair.1 := SettingStr (sql pair.2)]> settings)
                   ∅ pairs))
  ∧ (sql (Examples.column "foo") = "foo" →
     sql (Examples.text_literal "bar") = "'bar'" →
     sql (Examples.text_literal "baz") = "'baz'" →
     (∀ s, SQLStatement._parsed s = Examples.set_tree "foo" "bar" →
           SQLStatement.get_settings s = Ok {[ "foo" := SettingStr "'bar'" ]})
     ∧ (∀ engine,
          engine ≠ "kustokql" →
          parse "SET foo='bar'; SET foo='baz'" (SQLGLOT_DIALECTS !! engine)
          = Some [Some (Examples.set_tree "foo" "bar");
                  Some (Examples.set_tree "foo" "baz")] →
          ∃ script,
            SQLScript.init "SET foo='bar'; SET foo='baz'" engine = (Ok script, [])
            ∧ SQLScript.get_settings script
              = Ok {[ "foo" := SettingStr "'baz'" ]})).
Proof.
  split; [|split; [apply statement_get_settings_fold|]].
  - intros statements news H. eexists.
    split; [by apply script_get_settings_fold|].
    intros key. rewrite lookup_foldl_update.
    by destruct (last_assignment news key).
  - intros Hfoo Hbar Hbaz.
    assert (∀ s value,
              SQLStatement._parsed s = Examples.set_tree "foo" value →
              SQLStatement.get_settings s
              = Ok {[ "foo" := SettingStr (sql (Examples.text_literal value)) ]})
      as Hset.
    { intros s value Hp.
      rewrite (statement_get_settings_fold E s
                 [(Examples.column "foo", Examples.text_literal value)]).
      - cbn [foldl fst snd]. by rewrite Hfoo, insert_empty.
      - unfold SQLStatement.setting_pairs. rewrite Hp.
        by repeat constructor. }
    split.
    + intros s Hp. by rewrite (Hset s "bar"), Hbar.
    + intros engine Hne Hparse. unfold SQLScript.init.
      rewrite bool_decide_eq_false_2 by done.
      unfold SQLStatement.split_query. rewrite Hparse. eexists. split; [done|].
      rewrite (script_get_settings_fold E R _
                 [ {[ "foo" := SettingStr "'bar'" ]};
                   {[ "foo" := SettingStr "'baz'" ]} ]).
      * cbn [foldl]. unfold SQLScript.update.
        apply (f_equal Ok). apply map_eq. intros key.
        rewrite !lookup_union, lookup_empty.
        destruct (decide (key = "foo")) as [->|Hk].
        -- by rewrite !lookup_singleton_eq.
        -- by rewrite !lookup_singleton_ne.
      * cbn [result_bind result_map omap SQLStatement.init fmap list_fmap].
        constructor; [|constructor; [|constructor]];
          cbn [SQLScript.statement_get_settings].
        -- by rewrite (Hset _ "bar"), Hbar.
        -- by rewrite (Hset _ "baz"), Hbaz.
Qed.

Lemma script_settings_witness :
  @SQLStatement.get_settings Examples.engine
    (SQLStatement.mk (Examples.set_tree "foo" "bar") "sqlite" (Some SQLITE) ∅)
  = Ok {[ "foo" := SettingStr "'bar'" ]}
  ∧ ∃ script,
      @SQLScript.init Examples.engine "SET foo='bar'; SET foo='baz'" "sqlite"
      = (Ok script, [])
      ∧ @SQLScript.get_settings Examples.engine Examples.regex script
        = Ok {[ "foo" := SettingStr "'baz'" ]}.
Proof.
  destruct (script_settings Examples.engine Examples.regex) as (_ & _ & H).
  destruct (H eq_refl eq_refl eq_refl) as [H1 H2].
  split.
  - by apply H1.
  - by apply (H2 "sqlite").
Defined.

(** ** More on the splitter *)

(** The segments with their separators, and then the open text, are the text
    that was scanned. *)
Lemma segments_remainder (rest : list ascii) (st : KQLSplitState)
    (before pending : list ascii) :
  (segment ← Scan.segments st before pending rest; segment ++ [";"%char])
  ++ Segments.remainder st before pending rest
  = rev pending ++ rest.
Proof.
  revert st before pending.
  induction rest as [|c rest IH]; intros st before pending; simpl.
  { by rewrite app_nil_r. }
  destruct (Scan.separator st c) eqn:Hsep.
  - apply andb_prop in Hsep as [_ ->%bool_decide_eq_true].
    rewrite bind_cons, <- app_assoc, IH. simpl. by rewrite <- app_assoc.
  - rewrite IH. simpl. by rewrite <- app_assoc.
Qed.

(** When the scan ends outside any literal, after a separator, nothing is
    left open. *)
Lemma remainder_app_separator (l : list ascii) (st : KQLSplitState)
    (before pending : list ascii) :
  Scan.final st before l = OUTSIDE_STRING →
  Segments.remainder st before pending (l ++ [";"%char]) = [].
Proof.
  revert st before pending.
  induction l as [|c l IH]; intros st before pending H; simpl in *.
  - subst st. done.
  - destruct (Scan.separator st c) eqn:Hsep.
    + apply andb_prop in Hsep as [->%bool_decide_eq_true ->%bool_decide_eq_true].
      by apply IH.
    + by apply IH.
Qed.

Lemma remainder_nonempty (l : list ascii) (st : KQLSplitState)
    (before pending : list ascii) :
  Scan.final st before l ≠ OUTSIDE_STRING →
  Segments.remainder st before pending (l ++ [";"%char]) ≠ [].
Proof.
  revert st before pending.
  induction l as [|c l IH]; intros st before pending H; simpl in *.
  - destruct st; try done; simpl; by destruct (rev pending).
  - destruct (Scan.separator st c) eqn:Hsep.
    + apply andb_prop in Hsep as [->%bool_decide_eq_true ->%bool_decide_eq_true].
      by apply IH.
    + by apply IH.
Qed.

(** The scanned text is a text [l] and a separator, and [l] ends outside any
    literal when the text does. *)
Lemma query_of_separator (kql : string) :
  ∃ l, Py.chars (Kql.query_of kql) = l ++ [";"%char]
       ∧ (Scan.final OUTSIDE_STRING [] l = OUTSIDE_STRING
          ↔ state_after kql = OUTSIDE_STRING).
Proof.
  rewrite chars_query_of. unfold state_after.
  destruct (Py.endswith kql ";") eqn:He.
  - apply endswith_separator in He as [l ->]. exists l. split; [done|].
    rewrite final_app. cbn [Scan.final].
    destruct (decide (Scan.final OUTSIDE_STRING [] l = OUTSIDE_STRING)) as [->|Hne].
    + done.
    + destruct (step_separator_inside _ (rev l ++ []) Hne) as [-> _]. done.
  - by exists (Py.chars kql).
Qed.

Lemma text_app (l1 l2 : list ascii) : Py.text (l1 ++ l2) = Py.text l1 +:+ Py.text l2.
Proof.
  rewrite <- (text_chars (Py.text l1 +:+ Py.text l2)).
  by rewrite chars_app, !chars_text.
Qed.

Lemma terminated_segments (segments : list (list ascii)) :
  Segments.terminated (Py.text <$> segments)
  = Py.text (segment ← segments; segment ++ [";"%char]).
Proof.
  unfold Segments.terminated. f_equal.
  induction segments as [|s segments IH]; [done|].
  by rewrite fmap_cons, !bind_cons, IH, chars_text.
Qed.

Lemma split_kql_dropped (kql : string) :
  Kql.query_of kql = Segments.terminated (split_kql kql) +:+ Segments.dropped kql.
Proof.
  rewrite split_kql_segments, terminated_segments. unfold Segments.dropped.
  rewrite <- text_app, segments_remainder. simpl. by rewrite text_chars.
Qed.

Lemma dropped_empty (kql : string) :
  Segments.dropped kql = "" ↔ state_after kql = OUTSIDE_STRING.
Proof.
  unfold Segments.dropped.
  destruct (query_of_separator kql) as (l & -> & <-). split.
  - intros H%(text_inj _ []).
    destruct (decide (Scan.final OUTSIDE_STRING [] l = OUTSIDE_STRING)); [done|].
    by apply remainder_nonempty in H.
  - intros H. by rewrite remainder_app_separator.
Qed.

(** X1.  [split_kql] loses no text outside an open literal: the segments,
    each followed by a separator, and then the text it drops, are the text
    it scans (the text it is given, with a separator at the end when there
    was none), and it drops nothing exactly when the text ends outside any
    string literal. *)
Theorem split_kql_round_trip (kql : string) :
  Kql.query_of kql = Segments.terminated (split_kql kql) +:+ Segments.dropped kql
  ∧ (Segments.dropped kql = "" ↔ state_after kql = OUTSIDE_STRING)
  ∧ (state_after kql = OUTSIDE_STRING →
     Segments.terminated (split_kql kql) = Kql.query_of kql).
Proof.
  split; [apply split_kql_dropped|]. split; [apply dropped_empty|].
  intros H%dropped_empty. rewrite (split_kql_dropped kql), H.
  by rewrite <- (text_chars (_ +:+ "")), chars_app, app_nil_r, text_chars.
Qed.

Lemma split_kql_round_trip_witness :
  Segments.terminated (split_kql "a; 'b;c' ;d") = "a; 'b;c' ;d;"
  ∧ Segments.terminated (split_kql "a;b;") = "a;b;".
Proof.
  split.
  - by apply (split_kql_round_trip "a; 'b;c' ;d").
  - by apply (split_kql_round_trip "a;b;").
Defined.

(** *** String literals *)

(** Inside a literal in quotes, a character other than the quote changes
    nothing. *)
Lemma scan_quoted_content (q : ascii) (st : KQLSplitState)
    (content before : list ascii) :
  (q = "'"%char ∧ st = INSIDE_SINGLE_QUOTED_STRING)
  ∨ (q = Kql.double_quote ∧ st = INSIDE_DOUBLE_QUOTED_STRING)
  ∨ (q = Scan.backtick ∧ st = INSIDE_MULTILINE_STRING) →
  q ∉ content →
  Scan.final st before content = st ∧ Scan.separators st before content = 0%nat.
Proof.
  intros Hq. revert before.
  induction content as [|c content IH]; intros before Hc; [done|].
  apply not_elem_of_cons in Hc as [Hc Hcontent]. cbn [Scan.final Scan.separators].
  assert (Scan.step st before c = st ∧ Scan.separator st c = false) as [-> ->].
  { unfold Scan.step, Scan.separator, Scan.triple.
    destruct Hq as [[-> ->]|[[-> ->]|[-> ->]]];
      by rewrite (bool_decide_eq_false_2 (c = _)). }
  by apply IH.
Qed.

(** A literal in quotes whose last character is no backslash is closed by
    its second quote, and hides its separators. *)
Lemma scan_quoted (q : ascii) (content before : list ascii) :
  q = "'"%char ∨ q = Kql.double_quote →
  q ∉ content →
  last content ≠ Some Kql.backslash →
  Scan.final OUTSIDE_STRING before (Segments.quoted q content) = OUTSIDE_STRING
  ∧ Scan.separators OUTSIDE_STRING before (Segments.quoted q content) = 0%nat.
Proof.
  intros Hq Hc Hl. unfold Segments.quoted.
  cbn [Scan.final Scan.separators].
  set (st := Scan.step OUTSIDE_STRING before q).
  assert ((q = "'"%char ∧ st = INSIDE_SINGLE_QUOTED_STRING)
          ∨ (q = Kql.double_quote ∧ st = INSIDE_DOUBLE_QUOTED_STRING)
          ∨ (q = Scan.backtick ∧ st = INSIDE_MULTILINE_STRING)) as Hst.
  { destruct Hq as [->| ->]; [by left|right; by left]. }
  assert (Scan.separator OUTSIDE_STRING q = false) as ->.
  { by destruct Hq as [->| ->]. }
  destruct (scan_quoted_content q st content (q :: before) Hst Hc) as [Hf Hs].
  rewrite final_app, separators_app, Hf, Hs. cbn [Scan.final Scan.separators].
  assert (Scan.escaped (rev content ++ q :: before) = false) as Hesc.
  { unfold Scan.escaped. apply bool_decide_eq_false_2.
    destruct (rev content) as [|c r] eqn:Hr.
    - simpl. intros [= ->]. by destruct Hq.
    - simpl. intros [= ->]. apply Hl.
      rewrite <- (rev_involutive content), Hr. simpl. by rewrite last_snoc. }
  unfold Scan.step, Scan.separator.
  destruct Hst as [[-> ->]|[[-> ->]|[-> ->]]]; [| |by destruct Hq];
    by rewrite Hesc.
Qed.

(** A quote after a backslash does not close the literal. *)
Lemma scan_quoted_escaped (q : ascii) (content before : list ascii) :
  q = "'"%char ∨ q = Kql.double_quote →
  q ∉ content →
  last content = Some Kql.backslash →
  Scan.final OUTSIDE_STRING before (Segments.quoted q content) ≠ OUTSIDE_STRING.
Proof.
  intros Hq Hc Hl. unfold Segments.quoted. cbn [Scan.final].
  set (st := Scan.step OUTSIDE_STRING before q).
  assert ((q = "'"%char ∧ st = INSIDE_SINGLE_QUOTED_STRING)
          ∨ (q = Kql.double_quote ∧ st = INSIDE_DOUBLE_QUOTED_STRING)
          ∨ (q = Scan.backtick ∧ st = INSIDE_MULTILINE_STRING)) as Hst.
  { destruct Hq as [->| ->]; [by left|right; by left]. }
  destruct (scan_quoted_content q st content (q :: before) Hst Hc) as [Hf _].
  rewrite final_app, Hf. cbn [Scan.final].
  assert (Scan.escaped (rev content ++ q :: before) = true) as Hesc.
  { unfold Scan.escaped. apply bool_decide_eq_true_2.
    destruct content as [|c content _] using rev_ind; [done|].
    rewrite last_snoc in Hl. injection Hl as ->.
    by rewrite rev_app_distr. }
  unfold Scan.step.
  destruct Hst as [[-> ->]|[[-> ->]|[-> ->]]]; [| |by destruct Hq];
    by rewrite Hesc, andb_false_r.
Qed.

Lemma triple_closes (before : list ascii) :
  Scan.triple (Scan.backtick :: Scan.backtick :: before) Scan.backtick = true.
Proof. done. Qed.

Lemma triple_after_other (b : ascii) (before : list ascii) :
  b ≠ Scan.backtick → Scan.triple (b :: before) Scan.backtick = false.
Proof.
  intros H. unfold Scan.triple. destruct before; [done|].
  by rewrite (bool_decide_eq_false_2 (b = _)).
Qed.

Lemma triple_after_one (before : list ascii) :
  head before ≠ Some Scan.backtick →
  Scan.triple before Scan.backtick = false
  ∧ Scan.triple (Scan.backtick :: before) Scan.backtick = false.
Proof.
  intros H. unfold Scan.triple. destruct before as [|b1 [|b2 before]]; try done.
  - simpl in H. rewrite (bool_decide_eq_false_2 (b1 = _)) by congruence. done.
  - simpl in H. rewrite (bool_decide_eq_false_2 (b1 = _)) by congruence.
    by rewrite !andb_false_r.
Qed.

(** A literal in triple backticks that holds no backtick, after a text that
    does not end with one, is closed by its last backtick and hides its
    separators. *)
Lemma scan_multiline (content before : list ascii) :
  head before ≠ Some Scan.backtick →
  Scan.backtick ∉ content →
  Scan.final OUTSIDE_STRING before (Segments.multiline content) = OUTSIDE_STRING
  ∧ Scan.separators OUTSIDE_STRING before (Segments.multiline content) = 0%nat.
Proof.
  intros Hb Hc. unfold Segments.multiline, Segments.fence.
  destruct (triple_after_one before Hb) as [H1 H2].
  cbn [app Scan.final Scan.separators].
  assert (Scan.step OUTSIDE_STRING before Scan.backtick = OUTSIDE_STRING) as ->.
  { unfold Scan.step. by rewrite H1. }
  assert (Scan.step OUTSIDE_STRING (Scan.backtick :: before) Scan.backtick
          = OUTSIDE_STRING) as ->.
  { unfold Scan.step. by rewrite H2. }
  assert (Scan.step OUTSIDE_STRING (Scan.backtick :: Scan.backtick :: before)
            Scan.backtick = INSIDE_MULTILINE_STRING) as -> by done.
  change (Scan.separator OUTSIDE_STRING Scan.backtick) with false.
  set (opened := Scan.backtick :: Scan.backtick :: Scan.backtick :: before).
  destruct (scan_quoted_content Scan.backtick INSIDE_MULTILINE_STRING content
              opened) as [Hf Hs]; [by right; right|done|].
  rewrite final_app, separators_app, Hf, Hs.
  cbn [Scan.final Scan.separators plus].
  change (Scan.separator INSIDE_MULTILINE_STRING Scan.backtick) with false.
  destruct content as [|x content _] using rev_ind.
  - done.
  - rewrite rev_app_distr. cbn [rev app].
    apply not_elem_of_app in Hc as [_ Hx%not_elem_of_cons].
    destruct Hx as [Hx _].
    assert (Scan.step INSIDE_MULTILINE_STRING (x :: rev content ++ opened)
              Scan.backtick = INSIDE_MULTILINE_STRING) as ->.
    { unfold Scan.step. by rewrite triple_after_other. }
    assert (Scan.step INSIDE_MULTILINE_STRING
              (Scan.backtick :: x :: rev content ++ opened) Scan.backtick
            = INSIDE_MULTILINE_STRING) as ->.
    { unfold Scan.step, Scan.triple.
      by rewrite (bool_decide_eq_false_2 (x = _)), !andb_false_r. }
    change (Scan.separator INSIDE_MULTILINE_STRING Scan.backtick) with false.
    change (Scan.separator OUTSIDE_STRING Scan.backtick) with false.
    done.
Qed.

(** Scanning a text and then another. *)
Lemma state_after_app (pre rest : string) :
  state_after (pre +:+ rest)
  = Scan.final (state_after pre) (rev (Py.chars pre)) (Py.chars rest).
Proof.
  unfold state_after. by rewrite chars_app, final_app, app_nil_r.
Qed.

Lemma top_level_separators_app (pre rest : string) :
  top_level_separators (pre +:+ rest)
  = (top_level_separators pre
     + Scan.separators (state_after pre) (rev (Py.chars pre)) (Py.chars rest))%nat.
Proof.
  unfold top_level_separators, state_after.
  by rewrite chars_app, separators_app, app_nil_r.
Qed.

(** X2.  After a text that ends outside any literal, a literal in single or
    in double quotes that holds no such quote and does not end with a
    backslash is closed by its second quote and adds no top-level separator,
    whatever separators it holds; alone it is one segment.  When it ends
    with a backslash its second quote does not close it. *)
Theorem quoted_literal (pre content : string) (q : ascii) :
  state_after pre = OUTSIDE_STRING →
  q = "'"%char ∨ q = Kql.double_quote →
  q ∉ Py.chars content →
  let literal := Py.text (Segments.quoted q (Py.chars content)) in
  (last (Py.chars content) ≠ Some Kql.backslash →
   state_after (pre +:+ literal) = OUTSIDE_STRING
   ∧ top_level_separators (pre +:+ literal) = top_level_separators pre
   ∧ split_kql literal = [literal])
  ∧ (last (Py.chars content) = Some Kql.backslash →
     state_after (pre +:+ literal) ≠ OUTSIDE_STRING).
Proof.
  intros Hpre Hq Hc literal. split.
  - intros Hl.
    rewrite state_after_app, top_level_separators_app, Hpre.
    unfold literal. rewrite chars_text.
    destruct (scan_quoted q (Py.chars content) (rev (Py.chars pre)) Hq Hc Hl)
      as [-> ->].
    split; [done|]. split; [lia|].
    apply split_kql_closed. split; by apply scan_quoted.
  - intros Hl. rewrite state_after_app, Hpre. unfold literal.
    rewrite chars_text. by apply scan_quoted_escaped.
Qed.

Lemma quoted_literal_witness :
  state_after "print x='a;b;c'" = OUTSIDE_STRING
  ∧ top_level_separators "print x='a;b;c'" = top_level_separators "print x="
  ∧ split_kql "'a;b;c'" = ["'a;b;c'"].
Proof.
  destruct (quoted_literal "print x=" "a;b;c" "'"%char) as [H _].
  - done.
  - by left.
  - by apply (bool_decide_unpack _).
  - by apply H.
Defined.

(** X3.  After a text that ends outside any literal and not with a
    backtick, a literal in triple backticks that holds no backtick is closed
    by its last backtick and adds no top-level separator, whatever
    separators it holds. *)
Theorem multiline_literal (pre content : string) :
  state_after pre = OUTSIDE_STRING →
  last (Py.chars pre) ≠ Some Scan.backtick →
  Scan.backtick ∉ Py.chars content →
  let literal := Py.text (Segments.multiline (Py.chars content)) in
  state_after (pre +:+ literal) = OUTSIDE_STRING
  ∧ top_level_separators (pre +:+ literal) = top_level_separators pre.
Proof.
  intros Hpre Hl Hc literal.
  rewrite state_after_app, top_level_separators_app, Hpre.
  unfold literal. rewrite chars_text.
  destruct (scan_multiline (Py.chars content) (rev (Py.chars pre))) as [-> ->];
    [|done|split; [done|lia]].
  destruct (Py.chars pre) as [|c l _] using rev_ind; [done|].
  rewrite last_snoc in Hl. by rewrite rev_app_distr.
Qed.

Lemma multiline_literal_witness :
  state_after "print ```a;b```" = OUTSIDE_STRING
  ∧ top_level_separators "print ```a;b```" = top_level_separators "print ".
Proof.
  apply (multiline_literal "print " "a;b").
  - done.
  - done.
  - by apply (bool_decide_unpack _).
Defined.

(** *** Segments and statements *)

Lemma split_kql_segment_closed (kql : string) :
  Forall (λ segment, Scan.closed (Py.chars segment)) (split_kql kql).
Proof.
  rewrite split_kql_segments. apply Forall_fmap.
  eapply Forall_impl; [by apply (segments_closed _ _ _ _ [])|].
  intros s H. cbn. by rewrite chars_text.
Qed.

(** X4.  A segment of [split_kql] holds no top-level separator and ends
    outside any string literal, so that splitting it again gives the segment
    itself. *)
Theorem split_kql_idempotent (kql segment : string) :
  segment ∈ split_kql kql →
  split_kql segment = [segment]
  ∧ top_level_separators segment = 0%nat
  ∧ state_after segment = OUTSIDE_STRING.
Proof.
  intros H. split.
  - by apply (proj1 (Forall_forall _ _) (split_kql_segment_again kql)).
  - by apply (proj1 (Forall_forall _ _) (split_kql_segment_closed kql)).
Qed.

Lemma split_kql_idempotent_witness :
  split_kql " 'b;c' " = [" 'b;c' "]
  ∧ top_level_separators " 'b;c' " = 0%nat
  ∧ state_after " 'b;c' " = OUTSIDE_STRING.
Proof.
  apply (split_kql_idempotent "a; 'b;c' ;d").
  apply (bool_decide_unpack _). by vm_compute.
Defined.

(** The statements of the grammar-backed split. *)
Lemma sql_split_trees (E : Sqlglot) (engine : string) (trees : list Expression) :
  result_map (λ tree, SQLStatement.init (inr tree) engine) trees
  = Ok ((λ tree, SQLStatement.mk tree engine (SQLGLOT_DIALECTS !! engine)
                   (SQLStatement._extract_tables_from_statement tree engine))
        <$> trees).
Proof.
  induction trees as [|tree trees IH]; [done|].
  cbn [result_map]. by rewrite IH.
Qed.

Lemma sql_split_trees_eq (E : Sqlglot) (engine : string)
    (parsed : option (list (option Expression))) :
  match parsed with
  | None => Raise UnparseableQuery
  | Some statements =>
      result_map (λ statement, SQLStatement.init (inr statement) engine)
                 (omap id statements)
  end
  = match parsed with
    | None => Raise UnparseableQuery
    | Some statements =>
        Ok ((λ tree, SQLStatement.mk tree engine (SQLGLOT_DIALECTS !! engine)
                       (SQLStatement._extract_tables_from_statement tree engine))
            <$> omap id statements)
    end.
Proof. destruct parsed; [apply sql_split_trees|done]. Qed.

Lemma kql_split_query (query : string) :
  KustoKQLStatement.split_query query "kustokql"
  = (Ok ((λ segment, KustoKQLStatement.mk (Py.strip segment) "kustokql" ∅)
         <$> split_kql query),
     (λ _, KustoKQLStatement.table_extraction_warning) <$> split_kql query).
Proof.
  apply logged_map_ok.
  eapply Forall_impl; [apply split_kql_segment_again|].
  intros segment H. by apply kql_init_single.
Qed.

(** X5.  Building one statement from a text and splitting the text agree:
    the text gives a statement exactly when the split gives that statement
    alone, for the grammar-backed variant and, with the engine [kustokql],
    for the textual one, with the same warning. *)
Theorem construct_agrees_with_split (E : Sqlglot) (text engine : string) :
  (∀ s, SQLStatement.init (inl text) engine = Ok s
        ↔ SQLStatement.split_query text engine = Ok [s])
  ∧ (∀ s log, KustoKQLStatement.init text engine = (Ok s, log) →
              engine = "kustokql"
              ∧ KustoKQLStatement.split_query text engine = (Ok [s], log))
  ∧ (∀ s log, KustoKQLStatement.split_query text "kustokql" = (Ok [s], log) →
              KustoKQLStatement.init text "kustokql" = (Ok s, log)).
Proof.
  split; [|split].
  - intros s. unfold SQLStatement.split_query. rewrite sql_split_trees_eq.
    unfold SQLStatement.init, SQLStatement._parse_statement.
    destruct (parse text _) as [units|]; [|done]. cbn [result_bind].
    destruct (omap id units) as [|tree [|tree' trees]]; cbn [result_bind];
      split; intros ?; by simplify_eq/=.
  - intros s log H.
    assert (engine = "kustokql") as ->.
    { unfold KustoKQLStatement.init, KustoKQLStatement._parse_statement in H.
      case_bool_decide; [done|]. by destruct (decide (engine = "kustokql")). }
    split; [done|]. rewrite kql_split_query.
    unfold KustoKQLStatement.init, KustoKQLStatement._parse_statement in H.
    rewrite bool_decide_eq_false_2 in H by (by intros []).
    destruct (split_kql text) as [|segment [|??]]; try done.
    by injection H as <- <-.
  - intros s log. rewrite kql_split_query.
    destruct (split_kql text) as [|segment [|??]] eqn:Hs; try done.
    intros [= <- <-].
    unfold KustoKQLStatement.init, KustoKQLStatement._parse_statement.
    by rewrite Hs.
Qed.

Lemma construct_agrees_with_split_witness :
  @SQLStatement.split_query Examples.engine "SELECT 1" "sqlite"
  = Ok [SQLStatement.mk Examples.select_one_tree "sqlite" (Some SQLITE)
          (@SQLStatement._extract_tables_from_statement Examples.engine
             Examples.select_one_tree "sqlite")]
  ∧ KustoKQLStatement.split_query " T | take 1 " "kustokql"
    = (Ok [KustoKQLStatement.mk "T | take 1" "kustokql" ∅],
       [KustoKQLStatement.table_extraction_warning]).
Proof.
  destruct (construct_agrees_with_split Examples.engine "SELECT 1" "sqlite")
    as (H1 & _ & _).
  destruct (construct_agrees_with_split Examples.engine " T | take 1 " "kustokql")
    as (_ & H2 & _).
  split.
  - by apply H1.
  - by apply (H2 (KustoKQLStatement.mk "T | take 1" "kustokql" ∅)
                 [KustoKQLStatement.table_extraction_warning]).
Defined.


(** ** More on the extraction of tables *)

Lemma elem_of_tables_of_sources (t : Table) (sources : list Expression) :
  t ∈ tables_of_sources sources ↔
  ∃ source, source ∈ sources ∧ t = table_of_source source.
Proof.
  unfold tables_of_sources. rewrite elem_of_list_to_set, list_elem_of_fmap.
  split; intros (source & H1 & H2); by exists source.
Qed.

Lemma find_all_nodes (e node : Expression) (c : exp.Class) :
  node ∈ Exp.find_all e c ↔ node_of node e ∧ Exp.cls node = c.
Proof.
  unfold Exp.find_all, Exp.isinstance.
  rewrite list_elem_of_filter, bool_decide_eq_true, walk_nodes.
  split; intros [??]; by split.
Qed.

Lemma find_none (e : Expression) (c : exp.Class) :
  Exp.find e c = None ↔ ∀ node, node_of node e → Exp.cls node ≠ c.
Proof.
  unfold Exp.find. split.
  - intros H node Hn Hc.
    assert (node ∈ Exp.find_all e c) as Hin by by apply find_all_nodes.
    destruct (Exp.find_all e c); [by apply elem_of_nil in Hin|done].
  - intros H. destruct (Exp.find_all e c) as [|node l] eqn:Hl; [done|].
    assert (node ∈ Exp.find_all e c) as Hin by (rewrite Hl; by left).
    apply find_all_nodes in Hin as [Hn Hc]. by destruct (H node Hn).
Qed.

Lemma table_of_source_normal (source : Expression) :
  schema (table_of_source source) ≠ Some ""
  ∧ catalog (table_of_source source) ≠ Some "".
Proof.
  unfold table_of_source. simpl. split; case_bool_decide; congruence.
Qed.

(** The sources of whichever case applies are table nodes it reads. *)
Lemma extracted_source (E : Sqlglot) (statement : Expression)
    (dialect : option Dialects) (t : Table) :
  t ∈ extract_tables_from_statement statement dialect →
  ∃ source, Exp.cls source = exp.Table
            ∧ read_source statement dialect source
            ∧ t = table_of_source source.
Proof.
  unfold extract_tables_from_statement, Exp.isinstance, read_source.
  case_bool_decide as Hd.
  { intros (source & [Hn Hc]%find_all_nodes & ->)%elem_of_tables_of_sources.
    exists source. split; [done|]. split; [|done]. by left. }
  case_bool_decide as Hc.
  { destruct (Exp.find statement exp.Literal) as [literal|] eqn:Hl; [|set_solver].
    destruct (parse_one _ _) as [pseudo_query|] eqn:Hp; [|set_solver].
    intros (source & [Hn Hcls]%find_all_nodes & ->)%elem_of_tables_of_sources.
    exists source. split; [done|]. split; [|done]. right; left.
    split; [done|]. split; [done|]. by exists literal, pseudo_query. }
  intros (source & Hs & ->)%elem_of_tables_of_sources.
  apply scope_sources_spec in Hs as (scope & key & Hin & Hsrc & Hcls & _).
  exists source. split; [done|]. split; [|done]. right; right.
  split; [done|]. split; [done|]. by exists scope, key.
Qed.

(** X6.  Every table [extract_tables_from_statement] returns is built from
    a table node the case at hand reads (a node of the tree of a [DESCRIBE]
    statement, a node of the pseudo-query of a command, a table bound in a
    scope of the tree otherwise): it is named as the node is, its schema
    and its catalog are those of the node, and they are absent rather than
    empty. *)
Theorem extracted_tables_normal (E : Sqlglot) (statement : Expression)
    (dialect : option Dialects) (t : Table) :
  t ∈ extract_tables_from_statement statement dialect →
  (∃ source,
     Exp.cls source = exp.Table
     ∧ read_source statement dialect source
     ∧ table t = Exp.name source
     ∧ schema t = (if bool_decide (Exp.db source ≠ "")
                   then Some (Exp.db source) else None)
     ∧ catalog t = (if bool_decide (Exp.catalog source ≠ "")
                    then Some (Exp.catalog source) else None))
  ∧ schema t ≠ Some "" ∧ catalog t ≠ Some "".
Proof.
  intros (source & Hc & Hr & ->)%extracted_source.
  split; [by exists source|]. apply table_of_source_normal.
Qed.

Lemma extracted_tables_normal_witness :
  (∃ source,
     Exp.cls source = exp.Table
     ∧ @read_source Examples.engine Examples.cte_tree (Some SQLITE) source
     ∧ "target_table" = Exp.name source
     ∧ None = (if bool_decide (Exp.db source ≠ "")
               then Some (Exp.db source) else None)
     ∧ None = (if bool_decide (Exp.catalog source ≠ "")
               then Some (Exp.catalog source) else None))
  ∧ schema (mkTable "target_table" None None) ≠ Some ""
  ∧ catalog (mkTable "target_table" None None) ≠ Some "".
Proof.
  apply (extracted_tables_normal Examples.engine Examples.cte_tree (Some SQLITE)
           (mkTable "target_table" None None)).
  apply (bool_decide_unpack _). by vm_compute.
Defined.

(** X7.  For a [DESCRIBE] statement the tables are those of the table nodes
    of the tree, all of them, whatever the scopes are. *)
Theorem describe_tables (E : Sqlglot) (statement : Expression)
    (dialect : option Dialects) (t : Table) :
  Exp.cls statement = exp.Describe →
  t ∈ extract_tables_from_statement statement dialect
  ↔ ∃ node, node_of node statement ∧ Exp.cls node = exp.Table
            ∧ t = table_of_source node.
Proof.
  intros Hc. unfold extract_tables_from_statement, Exp.isinstance.
  rewrite bool_decide_eq_true_2 by done.
  rewrite elem_of_tables_of_sources. split.
  - intros (node & [??]%find_all_nodes & ->). by exists node.
  - intros (node & ? & ? & ->). exists node. by rewrite find_all_nodes.
Qed.

Lemma describe_tables_witness :
  mkTable "t" (Some "s") None
  ∈ @extract_tables_from_statement Examples.engine
      (Node exp.Describe []
         [("this",
           Node exp.Table []
             [("this", Examples.identifier "t"); ("db", Examples.identifier "s")])])
      None.
Proof.
  apply (describe_tables Examples.engine); [done|].
  exists (Node exp.Table []
            [("this", Examples.identifier "t"); ("db", Examples.identifier "s")]).
  split; [|done]. eapply node_child; [|constructor]. by left.
Defined.

(** X8.  A command with no literal node, or with a literal that does not
    parse as a [SELECT], has no table, and this is no error; with a literal
    that parses, its tables are those of the table nodes of the parsed
    [SELECT].  The scopes are not looked at. *)
Theorem command_tables (E : Sqlglot) (statement : Expression)
    (dialect : option Dialects) :
  Exp.cls statement = exp.Command →
  ((∀ node, node_of node statement → Exp.cls node ≠ exp.Literal) →
   extract_tables_from_statement statement dialect = ∅)
  ∧ (∀ literal,
       Exp.find statement exp.Literal = Some literal →
       node_of literal statement ∧ Exp.cls literal = exp.Literal
       ∧ match parse_one ("SELECT " +:+ format_this literal) dialect with
         | None => extract_tables_from_statement statement dialect = ∅
         | Some pseudo_query =>
             ∀ t, t ∈ extract_tables_from_statement statement dialect
                  ↔ ∃ node, node_of node pseudo_query
                            ∧ Exp.cls node = exp.Table
                            ∧ t = table_of_source node
         end).
Proof.
  intros Hc. unfold extract_tables_from_statement, Exp.isinstance.
  rewrite (bool_decide_eq_false_2 (Exp.cls statement = exp.Describe))
    by (by rewrite Hc).
  rewrite bool_decide_eq_true_2 by done. split.
  - intros H%find_none. by rewrite H.
  - intros literal Hf. rewrite Hf.
    assert (literal ∈ Exp.find_all statement exp.Literal) as Hin.
    { unfold Exp.find in Hf. destruct (Exp.find_all _ _); [done|].
      injection Hf as ->. by left. }
    apply find_all_nodes in Hin as [Hn Hl]. split; [done|]. split; [done|].
    destruct (parse_one _ _) as [pseudo_query|]; [|done].
    intros t. rewrite elem_of_tables_of_sources. split.
    + intros (node & [??]%find_all_nodes & ->). by exists node.
    + intros (node & ? & ? & ->). exists node. by rewrite find_all_nodes.
Qed.

Lemma command_tables_witness :
  @extract_tables_from_statement Examples.engine
    (Node exp.Command [("this", "SHOW")] []) None = ∅
  ∧ @extract_tables_from_statement Examples.engine
      Examples.explain_analyze_delete_tree (Some POSTGRES) = ∅.
Proof.
  split.
  - apply (command_tables Examples.engine
             (Node exp.Command [("this", "SHOW")] []) None); [done|].
    intros node Hn. apply walk_nodes in Hn.
    apply list_elem_of_singleton in Hn as ->. done.
  - destruct (command_tables Examples.engine Examples.explain_analyze_delete_tree
                (Some POSTGRES) eq_refl) as [_ H].
    by destruct (H (Examples.text_literal "ANALYZE DELETE FROM t") eq_refl)
      as (_ & _ & H').
Defined.

(** A source of a scope with no parent, or whose parent binds no name to a
    CTE, is no CTE. *)
Lemma is_cte_root (scopes : list Scope) (source : Expression) (scope : Scope) :
  parent scope = None → is_cte scopes source scope = false.
Proof.
  intros H. apply not_true_is_false.
  intros (p & _ & _ & _ & Hp & _)%is_cte_spec. congruence.
Qed.

(** X9.  In the general case a table that is a source of a scope with no
    parent scope, as the outermost query is, is always one of the tables. *)
Theorem root_tables_kept (E : Sqlglot) (statement : Expression)
    (dialect : option Dialects) (scope : Scope) (key : string)
    (source : Expression) :
  Exp.cls statement ≠ exp.Describe →
  Exp.cls statement ≠ exp.Command →
  scope ∈ traverse_scope statement →
  parent scope = None →
  (key, SourceTable source) ∈ sources scope →
  Exp.cls source = exp.Table →
  table_of_source source ∈ extract_tables_from_statement statement dialect.
Proof.
  intros Hd Hc Hscope Hp Hs Ht.
  unfold extract_tables_from_statement, Exp.isinstance.
  rewrite !bool_decide_eq_false_2 by done.
  apply elem_of_tables_of_sources. exists source. split; [|done].
  apply scope_sources_spec. exists scope, key. by rewrite is_cte_root.
Qed.

Lemma root_tables_kept_witness :
  mkTable "a" None None
  ∈ @extract_tables_from_statement MoreExamples.join_engine
      MoreExamples.join_tree None
  ∧ mkTable "b" None None
    ∈ @extract_tables_from_statement MoreExamples.join_engine
        MoreExamples.join_tree None.
Proof.
  split.
  - apply (root_tables_kept MoreExamples.join_engine MoreExamples.join_tree None
             (mkScope None ROOT
                [("a", SourceTable (Examples.table_ref "a"));
                 ("b", SourceTable (Examples.table_ref "b"))])
             "a" (Examples.table_ref "a")); try done.
    + by left.
    + by left.
  - apply (root_tables_kept MoreExamples.join_engine MoreExamples.join_tree None
             (mkScope None ROOT
                [("a", SourceTable (Examples.table_ref "a"));
                 ("b", SourceTable (Examples.table_ref "b"))])
             "b" (Examples.table_ref "b")); try done.
    + by left.
    + right. by left.
Defined.

(** ** The mutation of a script *)

Lemma any_false (E : Sqlglot) (fuel : nat) (statements : list Statement) :
  Mutation.any fuel statements = Some (Ok false)
  ↔ Forall (λ s, Mutation.statement fuel s = Some (Ok false)) statements.
Proof.
  induction statements as [|s statements IH]; cbn [Mutation.any].
  - split; [by constructor|done].
  - rewrite Forall_cons, <- IH.
    destruct (Mutation.statement fuel s) as [[[|]|]|]; split; try done;
      by intros [??].
Qed.

Lemma any_true (E : Sqlglot) (fuel : nat) (statements : list Statement) :
  Mutation.any fuel statements = Some (Ok true)
  ↔ ∃ before s after,
      statements = before ++ s :: after
      ∧ Forall (λ s, Mutation.statement fuel s = Some (Ok false)) before
      ∧ Mutation.statement fuel s = Some (Ok true).
Proof.
  induction statements as [|s statements IH]; cbn [Mutation.any].
  - split; [done|]. by intros ([|??] & ? & ? & ? & _).
  - destruct (Mutation.statement fuel s) as [[[|]|e]|] eqn:Hs.
    + split; [|done]. intros _. by exists [], s, statements.
    + rewrite IH. split.
      * intros (before & s' & after & -> & Hb & Hs').
        exists (s :: before), s', after. split; [done|]. split; [|done].
        by constructor.
      * intros ([|s0 before] & s' & after & Heq & Hb & Hs'); simplify_eq/=.
        apply Forall_cons in Hb as [_ Hb]. by exists before, s', after.
    + split; [done|].
      intros ([|s0 before] & s' & after & Heq & Hb & Hs'); simplify_eq/=.
      apply Forall_cons in Hb as [Hb _]. congruence.
    + split; [done|].
      intros ([|s0 before] & s' & after & Heq & Hb & Hs'); simplify_eq/=.
      apply Forall_cons in Hb as [Hb _]. congruence.
Qed.

Lemma any_kql (E : Sqlglot) (fuel : nat) (l : list KustoKQLStatement.t) :
  Mutation.any fuel (KQL <$> l)
  = Some (Ok (existsb KustoKQLStatement.is_mutating l)).
Proof.
  induction l as [|s l IH]; [done|]. rewrite fmap_cons.
  cbn [Mutation.any Mutation.statement existsb].
  destruct (KustoKQLStatement.is_mutating s); [done|]. apply IH.
Qed.

(** X10.  [has_mutation] answers false exactly when every statement answers
    false, and true exactly when some statement answers true after
    statements that all answered false: the statements that follow are not
    asked, so that an error of theirs is not raised.  For a script of the
    textual variant it always answers, with no fuel. *)
Theorem has_mutation_first (E : Sqlglot) (fuel : nat) (script : SQLScript.t) :
  (Mutation.has_mutation fuel script = Some (Ok false)
   ↔ Forall (λ s, Mutation.statement fuel s = Some (Ok false))
            (SQLScript.statements script))
  ∧ (Mutation.has_mutation fuel script = Some (Ok true)
     ↔ ∃ before s after,
         SQLScript.statements script = before ++ s :: after
         ∧ Forall (λ s, Mutation.statement fuel s = Some (Ok false)) before
         ∧ Mutation.statement fuel s = Some (Ok true))
  ∧ (∀ l, SQLScript.statements script = KQL <$> l →
          Mutation.has_mutation fuel script
          = Some (Ok (existsb KustoKQLStatement.is_mutating l))).
Proof.
  unfold Mutation.has_mutation. split; [apply any_false|].
  split; [apply any_true|]. intros l ->. apply any_kql.
Qed.

Lemma has_mutation_first_witness :
  @Mutation.has_mutation Examples.engine 0
    (SQLScript.mk
       [SQL (SQLStatement.mk Examples.select_one_tree "postgresql"
                             (Some POSTGRES) ∅);
        SQL (SQLStatement.mk Examples.delete_tree "postgresql"
                             (Some POSTGRES) ∅);
        SQL (SQLStatement.mk (Node exp.Command [("this", "EXPLAIN")] [])
                             "postgresql" (Some POSTGRES) ∅)])
  = Some (Ok true)
  ∧ @Mutation.statement Examples.engine 0
      (SQL (SQLStatement.mk (Node exp.Command [("this", "EXPLAIN")] [])
                            "postgresql" (Some POSTGRES) ∅))
    = Some (Raise AttributeError).
Proof.
  split; [|done].
  apply (has_mutation_first Examples.engine 0).
  exists [SQL (SQLStatement.mk Examples.select_one_tree "postgresql"
                               (Some POSTGRES) ∅)],
    (SQL (SQLStatement.mk Examples.delete_tree "postgresql" (Some POSTGRES) ∅)),
    [SQL (SQLStatement.mk (Node exp.Command [("this", "EXPLAIN")] [])
                          "postgresql" (Some POSTGRES) ∅)].
  split; [done|]. split; [by repeat constructor|done].
Defined.

(** ** Trimmed texts *)

Lemma lstrip_stops (l : list ascii) :
  Strip.stops_left l → Py.lstrip_chars l = l.
Proof.
  destruct l as [|c1 [|c2 [|c3 l]]]; simpl; try done.
  - by intros [-> _].
  - by intros (-> & -> & _).
  - by intros (-> & -> & ->).
Qed.

Lemma rstrip_stops (l : list ascii) :
  Strip.stops_right l → Py.rstrip_rev_chars l = l.
Proof.
  destruct l as [|c1 [|c2 [|c3 l]]]; simpl; try done.
  - by intros [-> _].
  - by intros (-> & -> & _).
  - by intros (-> & -> & ->).
Qed.

Lemma lstrip_result (l : list ascii) : Strip.stops_left (Py.lstrip_chars l).
Proof.
  remember (length l) as n eqn:Hn. revert l Hn.
  induction (lt_wf n) as [n _ IH]. intros l ->.
  destruct l as [|c1 l1]; [done|]. cbn [Py.lstrip_chars].
  destruct (Py.space1 c1) eqn:H1.
  { by apply (IH (length l1) ltac:(simpl; lia)). }
  destruct l1 as [|c2 l2]; [done|].
  destruct (Py.space2 c1 c2) eqn:H2.
  { by apply (IH (length l2) ltac:(simpl; lia)). }
  destruct l2 as [|c3 l3]; [done|].
  destruct (Py.space3 c1 c2 c3) eqn:H3; [|done].
  by apply (IH (length l3) ltac:(simpl; lia)).
Qed.

Lemma rstrip_result (l : list ascii) : Strip.stops_right (Py.rstrip_rev_chars l).
Proof.
  remember (length l) as n eqn:Hn. revert l Hn.
  induction (lt_wf n) as [n _ IH]. intros l ->.
  destruct l as [|c1 l1]; [done|]. cbn [Py.rstrip_rev_chars].
  destruct (Py.space1 c1) eqn:H1.
  { by apply (IH (length l1) ltac:(simpl; lia)). }
  destruct l1 as [|c2 l2]; [done|].
  destruct (Py.space2 c2 c1) eqn:H2.
  { by apply (IH (length l2) ltac:(simpl; lia)). }
  destruct l2 as [|c3 l3]; [done|].
  destruct (Py.space3 c3 c2 c1) eqn:H3; [|done].
  by apply (IH (length l3) ltac:(simpl; lia)).
Qed.

(** The tests [rstrip_rev_chars] makes on a list are made on any list that
    starts with it. *)
Lemma stops_right_prefix (x y : list ascii) :
  Strip.stops_right (x ++ y) → Strip.stops_right x.
Proof.
  destruct x as [|c1 [|c2 [|c3 x]]]; simpl; try done.
  - destruct y; [done|]. by intros [? _].
  - destruct y; [done|]. by intros (? & ? & _).
Qed.

(** What [strip] gives has white space at neither end. *)
Lemma strip_stops (s : string) :
  Strip.stops_left (Py.chars (Py.strip s))
  ∧ Strip.stops_right (rev (Py.chars (Py.strip s))).
Proof.
  unfold Py.strip. rewrite chars_text. split; [apply lstrip_result|].
  set (r := Py.rstrip_rev_chars (rev (Py.chars s))).
  destruct (lstrip_chars_plain (rev r)) as (k & Hk & _).
  apply (stops_right_prefix _ (rev k)).
  rewrite <- rev_app_distr, <- Hk, rev_involutive. apply rstrip_result.
Qed.

Lemma strip_idempotent (s : string) : Py.strip (Py.strip s) = Py.strip s.
Proof.
  destruct (strip_stops s) as [Hl Hr].
  unfold Py.strip at 1. rewrite rstrip_stops, rev_involutive, lstrip_stops by done.
  apply text_chars.
Qed.

(** X11.  The text of a statement of the textual variant is trimmed: it has
    white space at neither end, so that trimming it again, or building a
    statement from it again, changes nothing; [format] returns it as it
    is. *)
Theorem kql_statement_trimmed (text engine : string) (s : KustoKQLStatement.t)
    (log : list LogRecord) (comments : bool) :
  KustoKQLStatement.init text engine = (Ok s, log) →
  Py.strip (KustoKQLStatement._parsed s) = KustoKQLStatement._parsed s
  ∧ Strip.stops_left (Py.chars (KustoKQLStatement._parsed s))
  ∧ Strip.stops_right (rev (Py.chars (KustoKQLStatement._parsed s)))
  ∧ Format.kql_statement s comments = KustoKQLStatement._parsed s.
Proof.
  unfold KustoKQLStatement.init, KustoKQLStatement._parse_statement.
  case_bool_decide; [done|].
  destruct (split_kql text) as [|segment [|??]]; try done.
  intros [= <- _]. cbn [KustoKQLStatement._parsed].
  split; [apply strip_idempotent|]. split; [apply strip_stops|].
  split; [apply strip_stops|done].
Qed.

Lemma kql_statement_trimmed_witness :
  Py.strip "T | take 1" = "T | take 1".
Proof.
  by apply (kql_statement_trimmed "  T | take 1  " "kustokql"
              (KustoKQLStatement.mk "T | take 1" "kustokql" ∅)
              [KustoKQLStatement.table_extraction_warning] true).
Defined.

(** ** Texts without string literals *)

(** With no quote and no backtick the scan stays outside, and cuts as
    [split] does. *)
Lemma pieces_segments (rest before pending : list ascii) :
  Forall Segments.unquoted rest →
  Segments.pieces pending rest
  = Scan.segments OUTSIDE_STRING before pending rest
    ++ [Segments.remainder OUTSIDE_STRING before pending rest].
Proof.
  intros H. revert before pending.
  induction H as [|c rest (H1 & H2 & H3) _ IH]; intros before pending;
    [reflexivity|].
  cbn [Segments.pieces Scan.segments Segments.remainder].
  change (Scan.separator OUTSIDE_STRING c) with (bool_decide (c = ";"%char)).
  case_bool_decide as Hc.
  - by rewrite (IH (c :: before)).
  - assert (Scan.step OUTSIDE_STRING before c = OUTSIDE_STRING) as ->.
    { unfold Scan.step, Scan.triple. by rewrite !bool_decide_eq_false_2. }
    apply IH.
Qed.

Lemma unquoted_outside (l before : list ascii) :
  Forall Segments.unquoted l →
  Scan.final OUTSIDE_STRING before l = OUTSIDE_STRING.
Proof.
  intros H. revert before.
  induction H as [|c l (H1 & H2 & H3) _ IH]; intros before; [done|].
  cbn [Scan.final].
  assert (Scan.step OUTSIDE_STRING before c = OUTSIDE_STRING) as ->; [|apply IH].
  unfold Scan.step, Scan.triple. case_bool_decide; [done|].
  by rewrite !(bool_decide_eq_false_2 (c = _)).
Qed.

(** X12.  For a text with no quote and no backtick, [split_kql] cuts at
    every separator: its segments are the pieces of [split(";")] on the
    text it scans, but for the last piece, which is empty. *)
Theorem split_kql_unquoted (kql : string) :
  Forall Segments.unquoted (Py.chars kql) →
  Segments.split (Kql.query_of kql) = split_kql kql ++ [""].
Proof.
  intros H. unfold Segments.split.
  rewrite (pieces_segments _ [] []).
  - rewrite fmap_app, <- split_kql_segments. f_equal.
    destruct (query_of_separator kql) as (l & -> & Hf).
    rewrite remainder_app_separator; [done|].
    apply Hf. by apply unquoted_outside.
  - rewrite chars_query_of. destruct (Py.endswith kql ";"); [done|].
    apply Forall_app. split; [done|]. by repeat constructor.
Qed.

Lemma split_kql_unquoted_witness :
  Segments.split "T | take 1; U | count;" = split_kql "T | take 1; U | count" ++ [""].
Proof.
  apply (split_kql_unquoted "T | take 1; U | count").
  by apply (bool_decide_unpack _).
Defined.

(** ** More on the settings *)


Lemma foldl_raise {A B} (f : result A → B → result A) (e : exn) (l : list B) :
  (∀ b, f (Raise e) b = Raise e) → foldl f (Raise e) l = Raise e.
Proof. intros H. induction l as [|b l IH]; [done|]. simpl. by rewrite H. Qed.




(** *** The settings of two scripts in a row *)

Lemma script_settings_from (E : Sqlglot) (R : Regex)
    (statements : list Statement) (start : gmap string setting) :
  foldl (λ acc statement,
           result_bind acc (λ settings,
           result_bind (SQLScript.statement_get_settings statement) (λ new,
             Ok (SQLScript.update settings new))))
        (Ok start) statements
  = result_bind (SQLScript.get_settings (SQLScript.mk statements))
                (λ settings, Ok (SQLScript.update start settings)).
Proof.
  unfold SQLScript.get_settings. cbn [SQLScript.statements].
  revert start. induction statements as [|s statements IH]; intros start.
  { cbn. unfold SQLScript.update. by rewrite (left_id_L ∅ (∪)). }
  cbn [foldl result_bind].
  destruct (SQLScript.statement_get_settings s) as [new|e]; cbn [result_bind].
  - rewrite (IH (SQLScript.update start new)), (IH (SQLScript.update ∅ new)).
    destruct (foldl _ (Ok ∅) statements) as [settings|e]; [|done].
    cbn [result_bind]. unfold SQLScript.update.
    by rewrite (right_id_L ∅ (∪)), (assoc_L (∪)).
  - by rewrite !foldl_raise.
Qed.

(** X14.  The settings of a script made of two scripts in a row are those of
    the first updated with those of the second, and an error of the first
    comes first. *)
Theorem script_settings_app (E : Sqlglot) (R : Regex)
    (first second : list Statement) :
  SQLScript.get_settings (SQLScript.mk (first ++ second))
  = result_bind (SQLScript.get_settings (SQLScript.mk first)) (λ settings,
    result_bind (SQLScript.get_settings (SQLScript.mk second)) (λ new,
      Ok (SQLScript.update settings new))).
Proof.
  unfold SQLScript.get_settings at 1. cbn [SQLScript.statements].
  rewrite foldl_app.
  change (foldl _ (Ok ∅) first) with (SQLScript.get_settings (SQLScript.mk first)).
  destruct (SQLScript.get_settings (SQLScript.mk first)) as [settings|e];
    cbn [result_bind].
  - apply script_settings_from.
  - by rewrite foldl_raise.
Qed.

(** ** Formatting a script of the textual variant and splitting it again *)

Lemma blank_code (c : ascii) :
  Scan.code c ≠ 59 → Scan.code c ≠ 39 → Scan.code c ≠ 34 → Scan.code c ≠ 96 →
  Scan.code c ≠ 92 → Strip.blank c.
Proof.
  intros H1 H2 H3 H4 H5. split; [by apply plain_code|].
  intros ->. by apply H5.
Qed.

Lemma space1_blank (c : ascii) : Py.space1 c = true → Strip.blank c.
Proof.
  unfold Py.space1. fold (Scan.code c). intros H.
  rewrite orb_true_iff, !andb_true_iff, !Z.leb_le in H.
  apply blank_code; lia.
Qed.

Lemma space2_blank (c1 c2 : ascii) :
  Py.space2 c1 c2 = true → Strip.blank c1 ∧ Strip.blank c2.
Proof.
  unfold Py.space2. fold (Scan.code c1) (Scan.code c2). intros H.
  rewrite andb_true_iff, orb_true_iff, !Z.eqb_eq in H.
  split; apply blank_code; lia.
Qed.

Lemma space3_blank (c1 c2 c3 : ascii) :
  Py.space3 c1 c2 c3 = true → Strip.blank c1 ∧ Strip.blank c2 ∧ Strip.blank c3.
Proof.
  unfold Py.space3. fold (Scan.code c1) (Scan.code c2) (Scan.code c3). intros H.
  rewrite !orb_true_iff, !andb_true_iff, !orb_true_iff, !andb_true_iff,
    !Z.eqb_eq, !Z.leb_le in H.
  repeat split; apply blank_code; lia.
Qed.

Lemma lstrip_chars_blank (l : list ascii) :
  ∃ k, l = k ++ Py.lstrip_chars l ∧ Forall Strip.blank k.
Proof.
  remember (length l) as n eqn:Hn. revert l Hn.
  induction (lt_wf n) as [n _ IH]. intros l ->.
  destruct l as [|c1 l1]; [by exists []|]. simpl.
  destruct (Py.space1 c1) eqn:H1.
  { destruct (IH (length l1) ltac:(simpl; lia) l1 eq_refl) as (k & Hk & HP).
    exists (c1 :: k). split; [by rewrite Hk at 1|].
    constructor; [by apply space1_blank|done]. }
  destruct l1 as [|c2 l2]; [by exists []|].
  destruct (Py.space2 c1 c2) eqn:H2.
  { destruct (IH (length l2) ltac:(simpl; lia) l2 eq_refl) as (k & Hk & HP).
    apply space2_blank in H2 as [??].
    exists (c1 :: c2 :: k). split; [by rewrite Hk at 1|].
    by repeat apply Forall_cons_2. }
  destruct l2 as [|c3 l3]; [by exists []|].
  destruct (Py.space3 c1 c2 c3) eqn:H3; [|by exists []].
  destruct (IH (length l3) ltac:(simpl; lia) l3 eq_refl) as (k & Hk & HP).
  apply space3_blank in H3 as (? & ? & ?).
  exists (c1 :: c2 :: c3 :: k). split; [by rewrite Hk at 1|].
  by repeat apply Forall_cons_2.
Qed.

Lemma rstrip_rev_chars_blank (l : list ascii) :
  ∃ k, l = k ++ Py.rstrip_rev_chars l ∧ Forall Strip.blank k.
Proof.
  remember (length l) as n eqn:Hn. revert l Hn.
  induction (lt_wf n) as [n _ IH]. intros l ->.
  destruct l as [|c1 l1]; [by exists []|]. simpl.
  destruct (Py.space1 c1) eqn:H1.
  { destruct (IH (length l1) ltac:(simpl; lia) l1 eq_refl) as (k & Hk & HP).
    exists (c1 :: k). split; [by rewrite Hk at 1|].
    constructor; [by apply space1_blank|done]. }
  destruct l1 as [|c2 l2]; [by exists []|].
  destruct (Py.space2 c2 c1) eqn:H2.
  { destruct (IH (length l2) ltac:(simpl; lia) l2 eq_refl) as (k & Hk & HP).
    apply space2_blank in H2 as [??].
    exists (c1 :: c2 :: k). split; [by rewrite Hk at 1|].
    by repeat apply Forall_cons_2. }
  destruct l2 as [|c3 l3]; [by exists []|].
  destruct (Py.space3 c3 c2 c1) eqn:H3; [|by exists []].
  destruct (IH (length l3) ltac:(simpl; lia) l3 eq_refl) as (k & Hk & HP).
  apply space3_blank in H3 as (? & ? & ?).
  exists (c1 :: c2 :: c3 :: k). split; [by rewrite Hk at 1|].
  by repeat apply Forall_cons_2.
Qed.

(** What [strip] takes away, at the two ends. *)
Lemma strip_ends (s : string) :
  ∃ left right,
    Py.chars s = left ++ Py.chars (Py.strip s) ++ right
    ∧ Forall Strip.blank left ∧ Forall Strip.blank right.
Proof.
  unfold Py.strip. rewrite chars_text.
  destruct (rstrip_rev_chars_blank (rev (Py.chars s))) as (k & Hk & HPk).
  destruct (lstrip_chars_blank (rev (Py.rstrip_rev_chars (rev (Py.chars s)))))
    as (k' & Hk' & HPk').
  exists k', (rev k). split; [|split; [done|by apply Forall_rev]].
  rewrite app_assoc, <- Hk', <- rev_app_distr, <- Hk.
  by rewrite rev_involutive.
Qed.

(** White space changes no state and is no separator. *)
Lemma blank_step (st : KQLSplitState) (before : list ascii) (c : ascii) :
  Strip.blank c → Scan.step st before c = st ∧ Scan.separator st c = false.
Proof.
  intros [(H1 & H2 & H3 & H4) H5]. unfold Scan.step, Scan.separator, Scan.triple.
  rewrite !(bool_decide_eq_false_2 (c = _)) by done.
  by destruct st; rewrite ?andb_false_r.
Qed.

Lemma blank_scan (l : list ascii) (st : KQLSplitState) (before : list ascii) :
  Forall Strip.blank l →
  Scan.final st before l = st ∧ Scan.separators st before l = 0%nat.
Proof.
  intros H. revert before. induction H as [|c l Hc _ IH]; intros before; [done|].
  cbn [Scan.final Scan.separators].
  destruct (blank_step st before c Hc) as [-> ->]. apply IH.
Qed.

Lemma blank_look (c : ascii) (before : list ascii) :
  Strip.blank c → Scan.look (c :: before) = Scan.look [].
Proof.
  intros [(H1 & H2 & H3 & H4) H5]. unfold Scan.look. cbn [head].
  rewrite !(bool_decide_eq_false_2 (Some c = _)) by congruence.
  destruct before; [done|]. by rewrite (bool_decide_eq_false_2 (c = _)).
Qed.

Lemma blank_look_rev (l : list ascii) :
  Forall Strip.blank l → Scan.look (rev l) = Scan.look [].
Proof.
  intros H. destruct l as [|c l _] using rev_ind; [done|].
  apply Forall_app in H as [_ Hc]. apply Forall_cons in Hc as [Hc _].
  rewrite rev_app_distr. by apply blank_look.
Qed.

(** Trimming a closed text leaves it closed. *)
Lemma strip_closed (s : string) :
  Scan.closed (Py.chars s) → Scan.closed (Py.chars (Py.strip s)).
Proof.
  destruct (strip_ends s) as (left & right & -> & Hl & Hr).
  intros [Hs Hf].
  rewrite separators_app, separators_app in Hs.
  rewrite final_app, final_app in Hf. rewrite !app_nil_r in *.
  destruct (blank_scan left OUTSIDE_STRING [] Hl) as [Hfl Hsl].
  rewrite Hfl in *.
  destruct (blank_scan right
              (Scan.final OUTSIDE_STRING (rev left) (Py.chars (Py.strip s)))
              (rev (Py.chars (Py.strip s)) ++ rev left) Hr) as [Hfr Hsr].
  rewrite Hfr in Hf. split.
  - rewrite (separators_look _ _ [] (rev left))
      by (symmetry; by apply blank_look_rev). lia.
  - by rewrite (final_look _ _ [] (rev left))
      by (symmetry; by apply blank_look_rev).
Qed.

Lemma closed_anywhere_closed (l : list ascii) :
  Scan.closed l → Joined.closed_anywhere l.
Proof.
  intros [Hs Hf] before Hb.
  by rewrite (separators_look _ _ before []), (final_look _ _ before []).
Qed.

Lemma closed_anywhere_line_feed (l : list ascii) :
  Scan.closed l → Joined.closed_anywhere (Joined.line_feed :: l).
Proof.
  intros [Hs Hf] before Hb. cbn [Scan.separators Scan.final].
  assert (Strip.blank Joined.line_feed) as Hlf.
  { by apply blank_code. }
  destruct (blank_step OUTSIDE_STRING before _ Hlf) as [-> ->].
  rewrite (separators_look _ _ _ []), (final_look _ _ _ [])
    by (by apply blank_look).
  by rewrite Hs, Hf.
Qed.

(** Texts that are closed anywhere, each followed by a separator, are split
    into these texts. *)
Lemma segments_joined (ls : list (list ascii)) (before : list ascii) :
  Forall Joined.closed_anywhere ls →
  Scan.look before = Scan.look [] →
  Scan.segments OUTSIDE_STRING before [] (l ← ls; l ++ [";"%char]) = ls.
Proof.
  intros H. revert before.
  induction H as [|l ls Hl _ IH]; intros before Hb; [done|].
  rewrite bind_cons, <- app_assoc.
  destruct (Hl before Hb) as [Hs Hf].
  rewrite segments_app, Hf by done. cbn [app Scan.segments].
  change (Scan.separator OUTSIDE_STRING ";") with true. cbn match.
  rewrite app_nil_r, rev_involutive. f_equal.
  apply IH, look_separator.
Qed.

Lemma chars_join_separator (p : string) (ps : list string) :
  Py.chars (Py.join Format.separator (p :: ps)) ++ [";"%char]
  = l ← Joined.pieces p ps; l ++ [";"%char].
Proof.
  unfold Joined.pieces. rewrite bind_cons.
  revert p. induction ps as [|q ps IH]; intros p.
  { cbn. by rewrite app_nil_r. }
  rewrite join_cons, !chars_app, <- !app_assoc, IH.
  rewrite fmap_cons, !bind_cons. by f_equal.
Qed.

Lemma closed_last (l : list ascii) : Scan.closed l → last l ≠ Some ";"%char.
Proof.
  intros Hc [l' ->]%last_Some. apply closed_not_endswith in Hc.
  apply not_true_iff_false in Hc. apply Hc, endswith_separator.
  exists l'. by rewrite chars_text.
Qed.

Lemma join_last (p : string) (ps : list string) :
  Forall (λ s, Scan.closed (Py.chars s)) (p :: ps) →
  last (Py.chars (Py.join Format.separator (p :: ps))) ≠ Some ";"%char.
Proof.
  revert p. induction ps as [|q ps IH]; intros p [Hp Hps]%Forall_cons.
  { by apply closed_last. }
  rewrite join_cons, !chars_app, !last_app.
  specialize (IH q Hps).
  destruct (last (Py.chars (Py.join Format.separator (q :: ps)))); [done|].
  done.
Qed.

Lemma strip_trimmed (s : string) : Strip.trimmed s → Py.strip s = s.
Proof.
  intros [Hl Hr]. unfold Py.strip.
  by rewrite rstrip_stops, rev_involutive, lstrip_stops, text_chars.
Qed.

Lemma strip_line_feed (s : string) :
  Strip.trimmed s → Py.strip (Py.text (Joined.line_feed :: Py.chars s)) = s.
Proof.
  intros [Hl Hr]. unfold Py.strip. rewrite chars_text. cbn [rev].
  destruct (rev (Py.chars s)) as [|c1 r] eqn:Hrev.
  - assert (Py.chars s = []) as Hs.
    { by rewrite <- (rev_involutive (Py.chars s)), Hrev. }
    rewrite <- (text_chars s), Hs. done.
  - rewrite rstrip_stops.
    + rewrite rev_app_distr, <- Hrev, rev_involutive.
      change (Py.lstrip_chars (rev [Joined.line_feed] ++ Py.chars s))
        with (Py.lstrip_chars (Py.chars s)).
      by rewrite lstrip_stops, text_chars.
    + destruct r as [|c2 [|c3 r]]; cbn in Hr |- *; tauto.
Qed.

(** The statements of a script of the textual variant. *)
Lemma kql_script_statements (E : Sqlglot) (query : string) (script : SQLScript.t)
    (log : list LogRecord) :
  SQLScript.init query "kustokql" = (Ok script, log) →
  SQLScript.statements script
  = (λ segment, KQL (KustoKQLStatement.mk (Py.strip segment) "kustokql" ∅))
    <$> split_kql query
  ∧ log = (λ _, KustoKQLStatement.table_extraction_warning) <$> split_kql query.
Proof.
  unfold SQLScript.init. rewrite bool_decide_eq_true_2 by done.
  rewrite kql_split_query. cbn [logged_bind logged_ret].
  intros [= <- <-]. cbn [SQLScript.statements].
  by rewrite <- list_fmap_compose, app_nil_r.
Qed.

(** The split of the text [format] gives for trimmed, closed statements. *)
Lemma split_kql_join (p : string) (ps : list string) :
  Forall (λ s, Scan.closed (Py.chars s)) (p :: ps) →
  split_kql (Py.join Format.separator (p :: ps))
  = Py.text <$> Joined.pieces p ps.
Proof.
  intros H. rewrite split_kql_segments, chars_query_of.
  assert (Py.endswith (Py.join Format.separator (p :: ps)) ";" = false) as ->.
  { apply not_true_iff_false. intros [l Hl]%endswith_separator.
    apply (join_last p ps H). rewrite Hl. apply last_snoc. }
  rewrite chars_join_separator, segments_joined; [done| |done].
  apply Forall_cons in H as [Hp Hps]. unfold Joined.pieces.
  apply Forall_cons. split; [by apply closed_anywhere_closed|].
  apply Forall_fmap. eapply Forall_impl; [done|].
  intros s Hs. by apply closed_anywhere_line_feed.
Qed.

Lemma strip_pieces (p : string) (ps : list string) :
  Forall Strip.trimmed (p :: ps) →
  Py.strip <$> (Py.text <$> Joined.pieces p ps) = p :: ps.
Proof.
  intros [Hp Hps]%Forall_cons. unfold Joined.pieces.
  rewrite !fmap_cons, text_chars, strip_trimmed by done. f_equal.
  rewrite <- !list_fmap_compose. rewrite <- (list_fmap_id ps) at 2.
  apply Forall_fmap_ext. eapply Forall_impl; [done|].
  intros s Hs. cbn. by apply strip_line_feed.
Qed.

(** X15.  Formatting a script of the textual variant that has a statement
    and building a script from the text gives the script back, with the
    same warnings: [format] joins the trimmed statements with a separator
    and a line feed, and the split finds them again. *)
Theorem kql_format_round_trip (E : Sqlglot) (G : Generator) (query : string)
    (script : SQLScript.t) (log : list LogRecord) (comments : bool) :
  SQLScript.init query "kustokql" = (Ok script, log) →
  SQLScript.statements script ≠ [] →
  SQLScript.init (Format.script script comments) "kustokql" = (Ok script, log).
Proof.
  intros Hinit Hne.
  destruct (kql_script_statements E query script log Hinit) as [Hst ->].
  set (parts := Py.strip <$> split_kql query).
  assert (Format.script script comments = Py.join Format.separator parts) as ->.
  { unfold Format.script. rewrite Hst, <- list_fmap_compose. done. }
  assert (Forall (λ s, Scan.closed (Py.chars s)) parts) as Hclosed.
  { apply Forall_fmap. eapply Forall_impl; [apply split_kql_segment_closed|].
    intros s Hs. by apply strip_closed. }
  assert (Forall Strip.trimmed parts) as Htrimmed.
  { apply Forall_fmap, Forall_forall. intros s _. apply strip_stops. }
  assert (length parts = length (split_kql query)) as Hlen
    by apply length_fmap.
  destruct parts as [|p ps] eqn:Hparts.
  { destruct (split_kql query); [|done]. by rewrite Hst in Hne. }
  unfold SQLScript.init. rewrite bool_decide_eq_true_2 by done.
  rewrite kql_split_query, split_kql_join by done.
  cbn [logged_bind logged_ret]. rewrite app_nil_r.
  destruct script as [statements]. cbn [SQLScript.statements] in Hst.
  assert (∀ l : list string,
            KQL <$> ((λ segment, KustoKQLStatement.mk (Py.strip segment)
                                   "kustokql" ∅) <$> l)
            = (λ part, KQL (KustoKQLStatement.mk part "kustokql" ∅))
              <$> (Py.strip <$> l)) as Hmap.
  { intros l. by rewrite <- !list_fmap_compose. }
  rewrite Hmap, strip_pieces by done.
  assert (statements
          = (λ part, KQL (KustoKQLStatement.mk part "kustokql" ∅)) <$> p :: ps)
    as ->.
  { rewrite Hst, <- Hparts. subst parts. by rewrite <- list_fmap_compose. }
  f_equal.
  apply list_eq_same_length with (length (split_kql query)).
  - by rewrite length_fmap.
  - rewrite !length_fmap. unfold Joined.pieces. cbn [length].
    rewrite length_fmap. by rewrite <- Hlen.
  - intros i x y Hi Hx Hy. rewrite list_lookup_fmap in Hx, Hy.
    destruct (_ !! i) in Hx; destruct (_ !! i) in Hy; by simplify_eq/=.
Qed.

Lemma kql_format_round_trip_witness :
  let script :=
    SQLScript.mk [KQL (KustoKQLStatement.mk "T | take 1" "kustokql" ∅);
                  KQL (KustoKQLStatement.mk "print x=';'" "kustokql" ∅)] in
  let log := [KustoKQLStatement.table_extraction_warning;
              KustoKQLStatement.table_extraction_warning] in
  @SQLScript.init Examples.engine
    (@Format.script {| generate _ _ _ := "" |} script true) "kustokql"
  = (Ok script, log).
Proof.
  intros script log.
  apply (kql_format_round_trip Examples.engine {| generate _ _ _ := "" |}
           " T | take 1; print x=';' " script log true).
  - by vm_compute.
  - done.
Defined.

(** ** Scripts and statements as they are built *)

(** X16.  A script of the textual variant is always built, and
    [has_mutation] always answers for it, with no fuel: it is true exactly
    when some segment of the text, once trimmed, starts with [.] and not
    with [.show]. *)
Theorem kql_script_has_mutation (E : Sqlglot) (query : string) (fuel : nat) :
  ∃ script log,
    SQLScript.init query "kustokql" = (Ok script, log)
    ∧ length (SQLScript.statements script) = length (split_kql query)
    ∧ Mutation.has_mutation fuel script
      = Some (Ok (existsb (λ segment,
                             Py.startswith (Py.strip segment) "."
                             && negb (Py.startswith (Py.strip segment) ".show"))
                          (split_kql query))).
Proof.
  unfold SQLScript.init. rewrite bool_decide_eq_true_2 by done.
  rewrite kql_split_query. cbn [logged_bind logged_ret].
  eexists _, _. split; [done|]. cbn [SQLScript.statements].
  split; [by rewrite !length_fmap|].
  unfold Mutation.has_mutation. cbn [SQLScript.statements].
  rewrite any_kql. do 2 f_equal.
  induction (split_kql query) as [|segment l IH]; [done|].
  rewrite fmap_cons. cbn [existsb]. by rewrite IH.
Qed.

(** ** Tables that are well qualified *)

Lemma parts_well_qualified (t : Table) :
  Qualified.well_qualified t →
  TableOps.parts t
  = match schema t, catalog t with
    | Some s, Some c => [c; s; table t]
    | Some s, None => [s; table t]
    | None, _ => [table t]
    end.
Proof.
  intros (Ht & Hs & Hc & Hsc). rewrite parts_present.
  destruct t as [tb [s|] [c|]]; cbn in *; repeat case_bool_decide;
    try done; try congruence.
  by specialize (Hsc eq_refl).
Qed.

(** X18.  For tables that are well qualified, the equality of tables is the
    equality of their fields, and then their hashes are equal too. *)
Theorem well_qualified_eq (a b : Table)
    (h : string * option string * option string → Z) :
  Qualified.well_qualified a →
  Qualified.well_qualified b →
  (TableOps.eq a b = true ↔ a = b)
  ∧ (TableOps.eq a b = true → TableOps.hash h a = TableOps.hash h b).
Proof.
  intros Ha Hb.
  assert (TableOps.eq a b = true → a = b) as Heq.
  { intros H%eq_parts. rewrite !parts_well_qualified in H by done.
    destruct Ha as (_ & _ & _ & Ha), Hb as (_ & _ & _ & Hb).
    destruct a as [ta [sa|] [ca|]], b as [tb [sb|] [cb|]]; cbn in *;
      simplify_eq; try done;
      try (by specialize (Ha eq_refl)); by specialize (Hb eq_refl). }
  split; [split; [done|]|].
  - intros ->. by apply bool_decide_eq_true.
  - by intros ->%Heq.
Qed.

Lemma well_qualified_eq_witness :
  TableOps.eq (mkTable "t" (Some "s") None) (mkTable "t" (Some "s") None) = true
  ↔ mkTable "t" (Some "s") None = mkTable "t" (Some "s") None.
Proof.
  by apply (well_qualified_eq (mkTable "t" (Some "s") None)
              (mkTable "t" (Some "s") None) (λ _, 0)).
Defined.
